(** * percolator-cli: instruction encoders, account metas, quotes and
      the invariant checks of the test suites

    A shallow embedding of the TypeScript client of the Percolator risk
    engine.  BigInt values are [Z] (arbitrary precision, as in the
    source); JavaScript numbers that hold indices, counts and small
    integers are taken at their integer values, in [Z] or [nat]; strings
    are ASCII; a Node [Buffer] is a list of bytes held in [Z]; a thrown
    exception is the [Throw] branch of [result]. *)

From Stdlib Require Import ZArith Lia List String Ascii Bool.
From stdpp Require Import base option list gmap strings pretty sorting.

Local Open Scope Z_scope.

(* ===================================================================== *)
(** ** JavaScript exceptions as an error monad *)
(* ===================================================================== *)

Inductive JsError : Type :=
  | RangeError (code : string)
  | Error (message : string).

Inductive result (A : Type) : Type :=
  | Ok (a : A)
  | Throw (e : JsError).
Arguments Ok {A} a.
Arguments Throw {A} e.

#[global] Instance result_ret : MRet result := λ A a, Ok a.
#[global] Instance result_bind : MBind result := λ A B f m,
  match m with
  | Ok a => f a
  | Throw e => Throw e
  end.

Definition threw {A} (r : result A) : bool :=
  match r with Ok _ => false | Throw _ => true end.

(* ===================================================================== *)
(** ** Node's Buffer: allocation, integer writers, concatenation *)
(* ===================================================================== *)

Module Buffer.

Definition t := list Z.

(** [Buffer.alloc(n)]: [n] zero bytes. *)
Definition alloc (n : nat) : t := replicate n 0.

(** A store into a [Uint8Array] cell keeps the low eight bits. *)
Definition store (b : list Z) (offset : nat) (value : Z) : list Z :=
  <[offset := Z.land value 255]> b.

(** Little-endian stores of [n] successive bytes:
    [buf[offset++] = value; value = value >> 8; ...]. *)
Fixpoint storeLE (n : nat) (b : t) (value : Z) (offset : nat) : t :=
  match n with
  | O => b
  | S n' => storeLE n' (store b offset value) (Z.shiftr value 8) (S offset)
  end.

(** [boundsError(offset, buf.length - byteLength)] for an integer
    offset: ERR_BUFFER_OUT_OF_BOUNDS when the buffer is shorter than the
    width accessed, ERR_OUT_OF_RANGE (on the offset) otherwise. *)
Definition boundsError (b : list Z) (byteLength : nat) : JsError :=
  if (length b <? byteLength)%nat
  then RangeError "ERR_BUFFER_OUT_OF_BOUNDS"
  else RangeError "ERR_OUT_OF_RANGE".

(** The range and bounds check every writer starts with: the value
    first, then the first and the last byte of the window. *)
Definition checkInt (value lo hi : Z) (b : t) (offset byteLength : nat)
  : result unit :=
  if (value >? hi) || (value <? lo) then Throw (RangeError "ERR_OUT_OF_RANGE")
  else if (length b <? offset + byteLength)%nat
       then Throw (boundsError b byteLength)
       else Ok ().

Definition writeUIntLE (n : nat) (b : t) (value : Z) (offset : nat) : result t :=
  _ ← checkInt value 0 (2 ^ (8 * Z.of_nat n) - 1) b offset n;
  mret (storeLE n b value offset).

Definition writeUInt8 := writeUIntLE 1.
Definition writeUInt16LE := writeUIntLE 2.
Definition writeUInt32LE := writeUIntLE 4.
Definition writeBigUInt64LE := writeUIntLE 8.

(** [Buffer.concat([e1, ..., ek])]: the array literal is evaluated left
    to right, so the first element that throws decides the outcome. *)
Fixpoint concat (parts : list (result t)) : result t :=
  match parts with
  | [] => Ok []
  | p :: ps => x ← p; xs ← concat ps; mret (x ++ xs)
  end.

(** [Buffer.from(hex, "hex")]: decodes pairs of hexadecimal digits and
    stops at the first pair that is not one. *)
Definition hexDigit (c : ascii) : option Z :=
  let n := Z.of_N (N_of_ascii c) in
  if (48 <=? n) && (n <=? 57) then Some (n - 48)
  else if (97 <=? n) && (n <=? 102) then Some (n - 87)
  else if (65 <=? n) && (n <=? 70) then Some (n - 55)
  else None.

Fixpoint fromHexChars (cs : list ascii) : t :=
  match cs with
  | c1 :: c2 :: rest =>
      match hexDigit c1, hexDigit c2 with
      | Some h, Some l => (16 * h + l) :: fromHexChars rest
      | _, _ => []
      end
  | _ => []
  end.

Definition fromHex (s : string) : t := fromHexChars (list_ascii_of_string s).

End Buffer.

(** A web3.js [PublicKey], seen through [toBytes()]. *)
Record PublicKey : Type := { toBytes : list Z }.

(* ===================================================================== *)
(** ** The tight-spread LP deploy script: local encoders and data builders *)
(* ===================================================================== *)

Module DeployTightLp.

Definition MASK64 : Z := 0xFFFFFFFFFFFFFFFF.

Definition encU8 (v : Z) : result Buffer.t :=
  let b := Buffer.alloc 1 in
  Buffer.writeUInt8 b v 0.

Definition encU16LE (v : Z) : result Buffer.t :=
  let b := Buffer.alloc 2 in
  Buffer.writeUInt16LE b v 0.

Definition encU32LE (v : Z) : result Buffer.t :=
  let b := Buffer.alloc 4 in
  Buffer.writeUInt32LE b v 0.

Definition encU64LE (v : Z) : result Buffer.t :=
  let b := Buffer.alloc 8 in
  Buffer.writeBigUInt64LE b v 0.

Definition encU128LE (v : Z) : result Buffer.t :=
  let b := Buffer.alloc 16 in
  b ← Buffer.writeBigUInt64LE b (Z.land v MASK64) 0;
  Buffer.writeBigUInt64LE b (Z.shiftr v 64) 8.

Definition encI128LE (v : Z) : result Buffer.t :=
  let b := Buffer.alloc 16 in
  (* Two's complement for negative values *)
  let unsigned := if v <? 0 then Z.shiftl 1 128 + v else v in
  b ← Buffer.writeBigUInt64LE b (Z.land unsigned MASK64) 0;
  Buffer.writeBigUInt64LE b (Z.land (Z.shiftr unsigned 64) MASK64) 8.

Definition encPubkey (pk : PublicKey) : result Buffer.t := Ok (toBytes pk).

Definition buildInitLpData (matcherProg matcherCtx : PublicKey) (fee : Z)
  : result Buffer.t :=
  Buffer.concat [
    encU8 2;
    encPubkey matcherProg;
    encPubkey matcherCtx;
    encU64LE fee
  ].

Definition buildDepositData (userIdx : Z) (amount : Z) : result Buffer.t :=
  Buffer.concat [
    encU8 3;
    encU16LE userIdx;
    encU64LE amount
  ].

Definition buildKeeperCrankData (callerIdx : Z) : result Buffer.t :=
  Buffer.concat [
    encU8 5;
    encU16LE callerIdx;
    encU8 0
  ].

Definition buildTradeCpiData (lpIdx userIdx : Z) (size : Z) : result Buffer.t :=
  Buffer.concat [
    encU8 10;
    encU16LE lpIdx;
    encU16LE userIdx;
    encI128LE size
  ].

End DeployTightLp.

(* ===================================================================== *)
(** ** Little-endian byte strings, as the specification words them *)
(* ===================================================================== *)

Module LE.

(** The [n] low bytes of [v], least significant first. *)
Fixpoint bytes (n : nat) (v : Z) : list Z :=
  match n with
  | O => []
  | S n' => v mod 256 :: bytes n' (v / 256)
  end.

(** The unsigned number a byte string denotes, least significant first. *)
Fixpoint value (bs : list Z) : Z :=
  match bs with
  | [] => 0
  | b :: bs' => b + 256 * value bs'
  end.

Definition is_byte (b : Z) : Prop := 0 <= b < 256.

(** Two's-complement reading of a 16-byte little-endian string. *)
Definition decI128 (bs : list Z) : Z :=
  let u := value bs in
  if u <? 2 ^ 127 then u else u - 2 ^ 128.

End LE.

(* ===================================================================== *)
(** ** src/abi/encode.ts: the primitive encoders the ABI imports *)
(* ===================================================================== *)

Module Encode.

(** The functions src/abi/instructions.ts imports from ./encode.js.  The
    module itself is not available, so the instruction encoders are
    stated over any implementation of this interface.  Arguments typed
    [bigint | string] and [PublicKey | string] are taken after
    conversion. *)
Class Primitives : Type := {
  encU8 : Z → result Buffer.t;
  encU16 : Z → result Buffer.t;
  encU32 : Z → result Buffer.t;
  encU64 : Z → result Buffer.t;
  encU128 : Z → result Buffer.t;
  encI128 : Z → result Buffer.t;
  encPubkey : PublicKey → result Buffer.t
}.

(** The contract of the interface, as the specification (section 3:
    "All multi-byte integers are little-endian") and the vectors of
    test/abi.test.ts give it: a value of the field's range is returned as
    its little-endian bytes, a signed one in two's complement, a key as
    its bytes. *)
Class LittleEndian (P : Primitives) : Prop := {
  encU8_le v : 0 <= v < 2 ^ 8 → encU8 v = Ok (LE.bytes 1 v);
  encU16_le v : 0 <= v < 2 ^ 16 → encU16 v = Ok (LE.bytes 2 v);
  encU32_le v : 0 <= v < 2 ^ 32 → encU32 v = Ok (LE.bytes 4 v);
  encU64_le v : 0 <= v < 2 ^ 64 → encU64 v = Ok (LE.bytes 8 v);
  encU128_le v : 0 <= v < 2 ^ 128 → encU128 v = Ok (LE.bytes 16 v);
  encI128_le v :
    - 2 ^ 127 <= v < 2 ^ 127 → encI128 v = Ok (LE.bytes 16 (v mod 2 ^ 128));
  encPubkey_bytes pk : encPubkey pk = Ok (toBytes pk)
}.

(** The deploy script's own copy of the encoders implements the
    interface. *)
#[global] Instance deployPrimitives : Primitives := {|
  encU8 := DeployTightLp.encU8;
  encU16 := DeployTightLp.encU16LE;
  encU32 := DeployTightLp.encU32LE;
  encU64 := DeployTightLp.encU64LE;
  encU128 := DeployTightLp.encU128LE;
  encI128 := DeployTightLp.encI128LE;
  encPubkey := DeployTightLp.encPubkey
|}.

End Encode.

(* ===================================================================== *)
(** ** src/abi/instructions.ts: tags and instruction encoders *)
(* ===================================================================== *)

Module Instructions.
Import Encode.

Module IX_TAG.
Definition InitMarket : Z := 0.
Definition InitUser : Z := 1.
Definition InitLP : Z := 2.
Definition DepositCollateral : Z := 3.
Definition WithdrawCollateral : Z := 4.
Definition KeeperCrank : Z := 5.
Definition TradeNoCpi : Z := 6.
Definition LiquidateAtOracle : Z := 7.
Definition CloseAccount : Z := 8.
Definition TopUpInsurance : Z := 9.
Definition TradeCpi : Z := 10.
Definition SetRiskThreshold : Z := 11.
Definition UpdateAdmin : Z := 12.
Definition CloseSlab : Z := 13.
End IX_TAG.

Record InitMarketArgs : Type := {
  admin : PublicKey;
  collateralMint : PublicKey;
  indexFeedId : string;
  maxStalenessSecs : Z;
  confFilterBps : Z;
  invert : Z;
  unitScale : Z;
  warmupPeriodSlots : Z;
  maintenanceMarginBps : Z;
  initialMarginBps : Z;
  tradingFeeBps : Z;
  maxAccounts : Z;
  newAccountFee : Z;
  riskReductionThreshold : Z;
  maintenanceFeePerSlot : Z;
  maxCrankStalenessSlots : Z;
  liquidationFeeBps : Z;
  liquidationFeeCap : Z;
  liquidationBufferBps : Z;
  minLiquidationAbs : Z
}.

(** Remove the [0x] prefix if present. *)
Definition stripHexPrefix (feedId : string) : string :=
  match feedId with
  | String "0" (String "x" rest) => rest
  | _ => feedId
  end.

Definition encodeFeedId (feedId : string) : result Buffer.t :=
  let hex := stripHexPrefix feedId in
  if negb (Nat.eqb (String.length hex) 64)
  then Throw (Error ("Invalid feed ID length: expected 64 hex chars, got "
                       +:+ pretty (String.length hex)))
  else Ok (Buffer.fromHex hex).

Section Encoders.
Context {P : Primitives}.

Definition encodeInitMarket (args : InitMarketArgs) : result Buffer.t :=
  Buffer.concat [
    encU8 IX_TAG.InitMarket;
    encPubkey (admin args);
    encPubkey (collateralMint args);
    encodeFeedId (indexFeedId args);
    encU64 (maxStalenessSecs args);
    encU16 (confFilterBps args);
    encU8 (invert args);
    encU32 (unitScale args);
    encU64 (warmupPeriodSlots args);
    encU64 (maintenanceMarginBps args);
    encU64 (initialMarginBps args);
    encU64 (tradingFeeBps args);
    encU64 (maxAccounts args);
    encU128 (newAccountFee args);
    encU128 (riskReductionThreshold args);
    encU128 (maintenanceFeePerSlot args);
    encU64 (maxCrankStalenessSlots args);
    encU64 (liquidationFeeBps args);
    encU128 (liquidationFeeCap args);
    encU64 (liquidationBufferBps args);
    encU128 (minLiquidationAbs args)
  ].

Definition encodeInitUser (feePayment : Z) : result Buffer.t :=
  Buffer.concat [encU8 IX_TAG.InitUser; encU64 feePayment].

Definition encodeInitLP (matcherProgram matcherContext : PublicKey) (feePayment : Z)
  : result Buffer.t :=
  Buffer.concat [
    encU8 IX_TAG.InitLP;
    encPubkey matcherProgram;
    encPubkey matcherContext;
    encU64 feePayment
  ].

Definition encodeDepositCollateral (userIdx amount : Z) : result Buffer.t :=
  Buffer.concat [
    encU8 IX_TAG.DepositCollateral;
    encU16 userIdx;
    encU64 amount
  ].

Definition encodeWithdrawCollateral (userIdx amount : Z) : result Buffer.t :=
  Buffer.concat [
    encU8 IX_TAG.WithdrawCollateral;
    encU16 userIdx;
    encU64 amount
  ].

Definition encodeKeeperCrank (callerIdx : Z) (allowPanic : bool) : result Buffer.t :=
  Buffer.concat [
    encU8 IX_TAG.KeeperCrank;
    encU16 callerIdx;
    encU8 (if allowPanic then 1 else 0)
  ].

Definition encodeTradeNoCpi (lpIdx userIdx size : Z) : result Buffer.t :=
  Buffer.concat [
    encU8 IX_TAG.TradeNoCpi;
    encU16 lpIdx;
    encU16 userIdx;
    encI128 size
  ].

Definition encodeLiquidateAtOracle (targetIdx : Z) : result Buffer.t :=
  Buffer.concat [
    encU8 IX_TAG.LiquidateAtOracle;
    encU16 targetIdx
  ].

Definition encodeCloseAccount (userIdx : Z) : result Buffer.t :=
  Buffer.concat [encU8 IX_TAG.CloseAccount; encU16 userIdx].

Definition encodeTopUpInsurance (amount : Z) : result Buffer.t :=
  Buffer.concat [encU8 IX_TAG.TopUpInsurance; encU64 amount].

Definition encodeTradeCpi (lpIdx userIdx size : Z) : result Buffer.t :=
  Buffer.concat [
    encU8 IX_TAG.TradeCpi;
    encU16 lpIdx;
    encU16 userIdx;
    encI128 size
  ].

Definition encodeSetRiskThreshold (newThreshold : Z) : result Buffer.t :=
  Buffer.concat [
    encU8 IX_TAG.SetRiskThreshold;
    encU128 newThreshold
  ].

Definition encodeUpdateAdmin (newAdmin : PublicKey) : result Buffer.t :=
  Buffer.concat [encU8 IX_TAG.UpdateAdmin; encPubkey newAdmin].

Definition encodeCloseSlab : result Buffer.t :=
  encU8 IX_TAG.CloseSlab.

(** One value per instruction of the ABI, with its arguments. *)
Inductive Instruction : Type :=
  | InitMarket (args : InitMarketArgs)
  | InitUser (feePayment : Z)
  | InitLP (matcherProgram matcherContext : PublicKey) (feePayment : Z)
  | DepositCollateral (userIdx amount : Z)
  | WithdrawCollateral (userIdx amount : Z)
  | KeeperCrank (callerIdx : Z) (allowPanic : bool)
  | TradeNoCpi (lpIdx userIdx size : Z)
  | LiquidateAtOracle (targetIdx : Z)
  | CloseAccount (userIdx : Z)
  | TopUpInsurance (amount : Z)
  | TradeCpi (lpIdx userIdx size : Z)
  | SetRiskThreshold (newThreshold : Z)
  | UpdateAdmin (newAdmin : PublicKey)
  | CloseSlab.

Definition encode (ix : Instruction) : result Buffer.t :=
  match ix with
  | InitMarket args => encodeInitMarket args
  | InitUser fee => encodeInitUser fee
  | InitLP mp mc fee => encodeInitLP mp mc fee
  | DepositCollateral u a => encodeDepositCollateral u a
  | WithdrawCollateral u a => encodeWithdrawCollateral u a
  | KeeperCrank c p => encodeKeeperCrank c p
  | TradeNoCpi l u s => encodeTradeNoCpi l u s
  | LiquidateAtOracle t => encodeLiquidateAtOracle t
  | CloseAccount u => encodeCloseAccount u
  | TopUpInsurance a => encodeTopUpInsurance a
  | TradeCpi l u s => encodeTradeCpi l u s
  | SetRiskThreshold n => encodeSetRiskThreshold n
  | UpdateAdmin a => encodeUpdateAdmin a
  | CloseSlab => encodeCloseSlab
  end.

End Encoders.

End Instructions.

(* ===================================================================== *)
(** ** The operation taxonomy of the specification (section 6) *)
(* ===================================================================== *)

Module Taxonomy.
Import Instructions.

(** A payload field of the table: raw bytes of a stated size, or an
    integer of a stated width. *)
Inductive Field : Type :=
  | Raw (size : nat) (bs : list Z)
  | U8 (v : Z)
  | U16 (v : Z)
  | U32 (v : Z)
  | U64 (v : Z)
  | U128 (v : Z)
  | I128 (v : Z).

Definition fieldSize (f : Field) : nat :=
  match f with
  | Raw n _ => n
  | U8 _ => 1
  | U16 _ => 2
  | U32 _ => 4
  | U64 _ => 8
  | U128 _ => 16
  | I128 _ => 16
  end.

(** The bytes of a field: unsigned integers little-endian, the signed
    one in two's complement. *)
Definition fieldBytes (f : Field) : list Z :=
  match f with
  | Raw _ bs => bs
  | I128 v => LE.bytes 16 (v mod 2 ^ 128)
  | U8 v | U16 v | U32 v | U64 v | U128 v => LE.bytes (fieldSize f) v
  end.

(** The values a field of the table can hold. *)
Definition fieldOk (f : Field) : Prop :=
  match f with
  | Raw n bs => length bs = n
  | I128 v => - 2 ^ 127 <= v < 2 ^ 127
  | U8 v | U16 v | U32 v | U64 v | U128 v =>
      0 <= v < 2 ^ (8 * Z.of_nat (fieldSize f))
  end.

Definition boolByte (b : bool) : Z := if b then 1 else 0.

(** RiskParams(144B), in the order of section 3. *)
Definition riskParams (a : InitMarketArgs) : list Field :=
  [ U64 (warmupPeriodSlots a); U64 (maintenanceMarginBps a);
    U64 (initialMarginBps a); U64 (tradingFeeBps a); U64 (maxAccounts a);
    U128 (newAccountFee a); U128 (riskReductionThreshold a);
    U128 (maintenanceFeePerSlot a); U64 (maxCrankStalenessSlots a);
    U64 (liquidationFeeBps a); U128 (liquidationFeeCap a);
    U64 (liquidationBufferBps a); U128 (minLiquidationAbs a) ].

(** Tag and payload of each row of the table. *)
Definition row (ix : Instruction) : Z * list Field :=
  match ix with
  | InitMarket a =>
      (0, [ Raw 32 (toBytes (admin a)); Raw 32 (toBytes (collateralMint a));
            Raw 32 (Buffer.fromHex (stripHexPrefix (indexFeedId a)));
            U64 (maxStalenessSecs a); U16 (confFilterBps a);
            U8 (invert a); U32 (unitScale a) ] ++ riskParams a)
  | InitUser fee => (1, [U64 fee])
  | InitLP mp mc fee => (2, [Raw 32 (toBytes mp); Raw 32 (toBytes mc); U64 fee])
  | DepositCollateral u a => (3, [U16 u; U64 a])
  | WithdrawCollateral u a => (4, [U16 u; U64 a])
  | KeeperCrank c p => (5, [U16 c; U8 (boolByte p)])
  | TradeNoCpi l u s => (6, [U16 l; U16 u; I128 s])
  | LiquidateAtOracle t => (7, [U16 t])
  | CloseAccount u => (8, [U16 u])
  | TopUpInsurance a => (9, [U64 a])
  | TradeCpi l u s => (10, [U16 l; U16 u; I128 s])
  | SetRiskThreshold n => (11, [U128 n])
  | UpdateAdmin a => (12, [Raw 32 (toBytes a)])
  | CloseSlab => (13, [])
  end.

(** The tag byte followed by the fields, packed in order. *)
Definition packed (r : Z * list Field) : list Z :=
  r.1 :: concat (map fieldBytes r.2).

Definition packedSize (r : Z * list Field) : nat :=
  S (sum_list (map fieldSize r.2)).

(** Arguments that fit the table's field types; the feed id is the
    64-character string [encodeFeedId] asks for. *)
Definition argsOk (ix : Instruction) : Prop :=
  Forall fieldOk (row ix).2
  ∧ match ix with
    | InitMarket a => String.length (stripHexPrefix (indexFeedId a)) = 64%nat
    | _ => True
    end.

End Taxonomy.

(* ===================================================================== *)
(** ** src/abi/accounts.ts: account orderings and meta builder *)
(* ===================================================================== *)

Module Accounts.

Record AccountSpec : Type := {
  name : string;
  signer : bool;
  writable : bool
}.

(** [pubkey] is [keys[i]]: an array read, [None] past the end. *)
Record AccountMeta : Type := {
  pubkey : option PublicKey;
  isSigner : bool;
  isWritable : bool
}.

Definition ACCOUNTS_DEPOSIT_COLLATERAL : list AccountSpec := [
  {| name := "user"; signer := true; writable := false |};
  {| name := "slab"; signer := false; writable := true |};
  {| name := "userAta"; signer := false; writable := true |};
  {| name := "vault"; signer := false; writable := true |};
  {| name := "tokenProgram"; signer := false; writable := false |}
].

Definition ACCOUNTS_KEEPER_CRANK : list AccountSpec := [
  {| name := "caller"; signer := true; writable := false |};
  {| name := "slab"; signer := false; writable := true |};
  {| name := "clock"; signer := false; writable := false |};
  {| name := "oracle"; signer := false; writable := false |}
].

Definition buildAccountMetas (spec : list AccountSpec) (keys : list PublicKey)
  : result (list AccountMeta) :=
  if negb (Nat.eqb (length keys) (length spec))
  then Throw (Error ("Account count mismatch: expected " +:+ pretty (length spec)
                       +:+ ", got " +:+ pretty (length keys)))
  else Ok (imap (λ i s, {| pubkey := keys !! i;
                           isSigner := signer s;
                           isWritable := writable s |}) spec).

End Accounts.

(* ===================================================================== *)
(** ** src/commands/best-price.ts: passive matcher quote *)
(* ===================================================================== *)

Module BestPrice.

Definition PASSIVE_MATCHER_EDGE_BPS : Z := 50.
Definition BPS_DENOM : Z := 10000.

Record Quote : Type := { bid : Z; ask : Z }.

(** BigInt [/] truncates toward zero: [Z.quot]. *)
Definition computePassiveQuote (oraclePrice edgeBps : Z) : Quote :=
  let bid := (oraclePrice * (BPS_DENOM - edgeBps)) ÷ BPS_DENOM in
  let askNumer := oraclePrice * (BPS_DENOM + edgeBps) in
  let ask := (askNumer + BPS_DENOM - 1) ÷ BPS_DENOM in
  {| bid := bid; ask := ask |}.

End BestPrice.

(* ===================================================================== *)
(** ** src/solana/slab.ts: parsed slab components *)
(* ===================================================================== *)

Module Slab.

(** Modelled from the spec: the type declarations of src/solana/slab.ts
    ([SlabHeader], [EngineState], [RiskParams], [Account]) are not
    available.  The records carry the fields of section 3
    that the checks read, under the names their users give them. *)
Record SlabHeader : Type := {
  magic : Z;
  version : Z;
  bump : Z;
  admin : PublicKey;
  nonce : Z;
  lastThrUpdateSlot : Z
}.

Record InsuranceFund : Type := {
  balance : Z;
  feeRevenue : Z
}.

Record EngineState : Type := {
  vault : Z;
  insuranceFund : InsuranceFund;
  pnlPosTot : Z;
  totalOpenInterest : Z;
  nextAccountId : Z;
  numUsedAccounts : Z
}.

Record RiskParams : Type := {
  maintenanceMarginBps : Z;
  initialMarginBps : Z;
  tradingFeeBps : Z;
  maxAccounts : Z
}.

Record Account : Type := {
  accountId : Z;
  capital : Z;
  pnl : Z;
  positionSize : Z
}.

Definition MAGIC : Z := 0x504552434f4c4154.

(** Node's [readBigUInt64LE], [readUInt32LE], [readUInt8]: a bounds
    check on the first and the last byte read ([boundsError] when one is
    missing), then the little-endian value of the bytes at [offset]. *)
Definition readUIntLE (n : nat) (data : list Z) (offset : nat) : result Z :=
  if (length data <? offset + n)%nat
  then Throw (Buffer.boundsError data n)
  else Ok (LE.value (take n (drop offset data))).

(** Modelled from the spec: [parseHeader] of src/solana/slab.ts is not
    available; only its callers and test/slab.test.ts are.  Section 6 puts the magic "PERCOLAT" at byte 0, followed
    by the version; the test's mock slab gives the offsets of the other
    header fields and the text of the error.  The magic is read and
    compared before anything else; where the real parser checks the total
    header length is not told by the specification. *)
Definition parseHeader (data : list Z) : result SlabHeader :=
  magic ← readUIntLE 8 data 0;
  if negb (magic =? MAGIC)
  then Throw (Error "Invalid slab magic")
  else
    version ← readUIntLE 4 data 8;
    bump ← readUIntLE 1 data 12;
    nonce ← readUIntLE 8 data 48;
    lastThrUpdateSlot ← readUIntLE 8 data 56;
    mret {| magic := magic;
            version := version;
            bump := bump;
            admin := {| toBytes := take 32 (drop 16 data) |};
            nonce := nonce;
            lastThrUpdateSlot := lastThrUpdateSlot |}.

(** [createMockSlab] of test/slab.test.ts: 300 bytes, the header fields
    written at their offsets (the market config that follows is left
    zero here). *)
Definition mockSlab : list Z :=
  LE.bytes 8 MAGIC ++ LE.bytes 4 1 ++ [255; 0; 0; 0]
    ++ (1 :: replicate 31 0)
    ++ LE.bytes 8 42 ++ LE.bytes 8 12345 ++ replicate 236 0.

(** "The message includes ...", as the test asks it of a thrown error. *)
Definition includes (needle : string) (r : JsError) : bool :=
  match r with
  | Error message | RangeError message =>
      match String.index 0 needle message with Some _ => true | None => false end
  end.

End Slab.

(* ===================================================================== *)
(** ** The happy-path test script: its conservation check *)
(* ===================================================================== *)

Module HappyPath.
Import Slab.





End HappyPath.

(* ===================================================================== *)
(** ** tests/harness.ts and tests/t1-market-boot.ts: T1.3 *)
(* ===================================================================== *)

Module MarketBoot.
Import Slab.

(** [TestHarness.assert] *)
Definition assert (condition : bool) (message : string) : result unit :=
  if negb condition
  then Throw (Error ("Assertion failed: " +:+ message))
  else Ok ().

(** The assertions of "T1.3: Market config verification" on the parsed
    risk parameters of the snapshot. *)
Definition marketConfigVerification (params : RiskParams) : result unit :=
  _ ← assert (initialMarginBps params >? 0) "IM ratio should be positive";
  _ ← assert (maintenanceMarginBps params >? 0) "MM ratio should be positive";
  assert (initialMarginBps params >=? maintenanceMarginBps params)
         "IM ratio should be >= MM ratio".

End MarketBoot.

(* ===================================================================== *)
(** ** JavaScript numbers converted from BigInt *)
(* ===================================================================== *)

Module JsNumber.

(** The values [Number(n)] takes on a BigInt [n]: a double that holds an
    integer, or an infinity. *)
Inductive t : Type := Finite (z : Z) | PosInfinity | NegInfinity.

(** A natural number rounded to 53 significant bits, ties to even. *)
Definition round53 (n : Z) : Z :=
  let bits := Z.log2 n + 1 in
  if bits <=? 53 then n
  else
    let k := bits - 53 in
    let q := Z.shiftr n k in
    let r := n - Z.shiftl q k in
    let half := Z.shiftl 1 (k - 1) in
    let q' := if (r >? half) || ((r =? half) && Z.odd q) then q + 1 else q in
    Z.shiftl q' k.

(** [Number(n)] for a BigInt [n]: the nearest double, an infinity beyond
    the largest one. *)
Definition ofBigInt (n : Z) : t :=
  let m := round53 (Z.abs n) in
  if m >=? 2 ^ 1024 then (if n <? 0 then NegInfinity else PosInfinity)
  else Finite (Z.sgn n * m).

(** [x > y] for an integer [x] and a number [y]. *)
Definition gtb (x : Z) (y : t) : bool :=
  match y with
  | Finite z => x >? z
  | PosInfinity => false
  | NegInfinity => true
  end.

(** [x <= y], as a proposition. *)
Definition le (x : Z) (y : t) : Prop :=
  match y with
  | Finite z => x <= z
  | PosInfinity => True
  | NegInfinity => False
  end.

(** The number of decimal digits of a positive integer. *)
Definition digits (v : Z) : Z := Z.of_nat (String.length (pretty v)).

Definition isFinite (v : Z) (x : t) : bool :=
  match x with Finite z => z =? v | _ => false end.

(** The two multiples of [10^(n-k)] next to [v], for [n] the number of
    digits of [v]: the nearer one first, the one with the even
    significand first when they are as near. *)
Definition candidates (v k : Z) : list Z :=
  let e := digits v - k in
  if e <=? 0 then [v]
  else
    let lo := (v / 10 ^ e) * 10 ^ e in
    let hi := lo + 10 ^ e in
    if v - lo <? hi - v then [lo; hi]
    else if hi - v <? v - lo then [hi; lo]
    else if Z.even (v / 10 ^ e) then [lo; hi] else [hi; lo].

(** The decimal integer with the fewest significant digits that converts
    back to the double [v > 0]. *)
Fixpoint shortest (fuel : nat) (k : Z) (v : Z) : Z :=
  match fuel with
  | O => v
  | S fuel' =>
      match List.find (λ w, isFinite v (ofBigInt w)) (candidates v k) with
      | Some w => w
      | None => shortest fuel' (k + 1) v
      end
  end.

Fixpoint stripZeros (fuel : nat) (w : Z) : Z :=
  match fuel with
  | O => w
  | S fuel' => if w mod 10 =? 0 then stripZeros fuel' (w / 10) else w
  end.

(** [String(x)], the text a template literal inserts: the shortest
    digits that read back as [x], in full up to 21 digits and with an
    exponent beyond. *)
Definition toString (x : t) : string :=
  match x with
  | PosInfinity => "Infinity"
  | NegInfinity => "-Infinity"
  | Finite z =>
      if z =? 0 then "0"
      else
        let w := shortest 17 1 (Z.abs z) in
        let sign := if z <? 0 then "-" else "" in
        let n := digits w in
        if n <=? 21 then sign +:+ pretty w
        else
          match pretty (stripZeros (Z.to_nat n) w) with
          | String d "" => sign +:+ String d "" +:+ "e+" +:+ pretty (n - 1)
          | String d ds => sign +:+ String d ("." +:+ ds) +:+ "e+" +:+ pretty (n - 1)
          | "" => ""
          end
  end.

End JsNumber.

(* ===================================================================== *)
(** ** tests/invariants.ts: the invariant checker *)
(* ===================================================================== *)

Module Invariants.
Import Slab.

Record InvariantResult : Type := {
  name : string;
  passed : bool;
  expected : option string;
  actual : option string;
  message : option string
}.

(** An element [{ idx, account }] of the parsed account array. *)
Record IndexedAccount : Type := {
  idx : nat;
  account : Account
}.

Record SlabSnapshot : Type := {
  header : SlabHeader;
  engine : EngineState;
  params : RiskParams;
  accounts : list IndexedAccount;
  usedIndices : list nat
}.

Record InvariantReport : Type := {
  reportPassed : bool;
  results : list InvariantResult;
  snapshot : SlabSnapshot
}.

Definition errorMessage (e : JsError) : string :=
  match e with RangeError m | Error m => m end.

(** [n.toString(16)] of a BigInt. *)
Definition hexChar (d : Z) : ascii :=
  ascii_of_N (Z.to_N (if d <? 10 then 48 + d else 87 + d)).

Fixpoint hexDigits (fuel : nat) (n : Z) (acc : string) : string :=
  match fuel with
  | O => acc
  | S fuel' =>
      let acc' := String (hexChar (n mod 16)) acc in
      if n / 16 =? 0 then acc' else hexDigits fuel' (n / 16) acc'
  end.

Definition toString16 (n : Z) : string :=
  let digits m := hexDigits (S (Z.to_nat (Z.log2 m))) m "" in
  if n <? 0 then "-" +:+ digits (- n) else digits n.

(** [new Map(accounts.map(a => [a.idx, a.account]))]: a later entry for
    the same index overwrites an earlier one. *)
Definition accountMap (accounts : list IndexedAccount) : gmap nat Account :=
  foldl (λ m a, <[idx a := account a]> m) ∅ accounts.

(** I1: Magic number is correct. *)
Definition checkMagicNumber (header : SlabHeader) : InvariantResult :=
  let EXPECTED_MAGIC := 0x504552434f4c4154 in
  let passed := magic header =? EXPECTED_MAGIC in
  {| name := "I1: Magic number";
     passed := passed;
     expected := Some ("0x" +:+ toString16 EXPECTED_MAGIC);
     actual := Some ("0x" +:+ toString16 (magic header));
     message := None |}.

(** The first used index without an entry in the map, if any. *)
Fixpoint firstMissing (m : gmap nat Account) (usedIndices : list nat) : option nat :=
  match usedIndices with
  | [] => None
  | i :: rest =>
      match m !! i with
      | None => Some i
      | Some _ => firstMissing m rest
      end
  end.

(** I2: Bitmap consistency - used indices match bitmap bits. *)
Definition checkBitmapConsistency (engine : EngineState) (usedIndices : list nat)
    (accounts : list IndexedAccount) : InvariantResult :=
  let accountMap := accountMap accounts in
  match firstMissing accountMap usedIndices with
  | Some i =>
      {| name := "I2: Bitmap consistency";
         passed := false;
         expected := None; actual := None;
         message := Some ("Used index " +:+ pretty i
                            +:+ " not found in accounts array") |}
  | None =>
      if negb (Z.of_nat (length usedIndices) =? numUsedAccounts engine)
      then {| name := "I2: Bitmap consistency";
              passed := false;
              expected := Some (pretty (numUsedAccounts engine) +:+ " used accounts");
              actual := Some (pretty (length usedIndices) +:+ " bitmap bits set");
              message := None |}
      else {| name := "I2: Bitmap consistency";
              passed := true;
              expected := None; actual := None; message := None |}
  end.

(** The loop of I3: the first account id met a second time, if any.
    [seenIds] holds the decimal strings of the ids met so far. *)
Fixpoint findDuplicateId (m : gmap nat Account) (seenIds : gset string)
    (usedIndices : list nat) : option string :=
  match usedIndices with
  | [] => None
  | i :: rest =>
      match m !! i with
      | None => findDuplicateId m seenIds rest
      | Some acc =>
          let idStr := pretty (accountId acc) in
          if decide (idStr ∈ seenIds) then Some idStr
          else findDuplicateId m ({[idStr]} ∪ seenIds) rest
      end
  end.

(** I3: Account IDs are unique among used accounts. *)
Definition checkAccountIdUniqueness (accounts : list IndexedAccount)
    (usedIndices : list nat) : InvariantResult :=
  let accountMap := accountMap accounts in
  match findDuplicateId accountMap ∅ usedIndices with
  | Some idStr =>
      {| name := "I3: Account ID uniqueness";
         passed := false;
         expected := None; actual := None;
         message := Some ("Duplicate account ID: " +:+ idStr) |}
  | None =>
      {| name := "I3: Account ID uniqueness";
         passed := true;
         expected := None; actual := None; message := None |}
  end.

(** Sum all user capital over the used indices that have an account. *)
Definition totalUserCapital (m : gmap nat Account) (usedIndices : list nat) : Z :=
  foldl (λ total i, match m !! i with
                    | Some acc => total + capital acc
                    | None => total
                    end) 0 usedIndices.

(** I4: Conservation of collateral.  [getAccount] is the outcome of
    fetching the vault token account: its [amount], or the error thrown. *)
Definition checkCollateralConservation (getAccount : result Z)
    (accounts : list IndexedAccount) (usedIndices : list nat)
    (engine : EngineState) : InvariantResult :=
  let accountMap := accountMap accounts in
  let totalUserCapital := totalUserCapital accountMap usedIndices in
  let totalInSlab := totalUserCapital + balance (insuranceFund engine) in
  match getAccount with
  | Ok vaultBalance =>
      let diff := if totalInSlab >? vaultBalance
                  then totalInSlab - vaultBalance
                  else vaultBalance - totalInSlab in
      if diff >? 200000
      then {| name := "I4: Collateral conservation";
              passed := false;
              expected := Some ("Slab total: " +:+ pretty totalInSlab);
              actual := Some ("Vault balance: " +:+ pretty vaultBalance);
              message := Some ("Difference: " +:+ pretty diff) |}
      else {| name := "I4: Collateral conservation";
              passed := true;
              expected := None; actual := None;
              message := Some ("Total: " +:+ pretty totalInSlab +:+ ", Vault: "
                                 +:+ pretty vaultBalance +:+ ", Diff: "
                                 +:+ pretty diff) |}
  | Throw e =>
      {| name := "I4: Collateral conservation";
         passed := false;
         expected := None; actual := None;
         message := Some ("Failed to fetch vault: " +:+ errorMessage e) |}
  end.

(** The loop of I5: total long and total short size. *)
Definition openInterestTotals (m : gmap nat Account) (usedIndices : list nat) : Z * Z :=
  foldl (λ '(totalLong, totalShort) i,
           match m !! i with
           | None => (totalLong, totalShort)
           | Some acc =>
               if positionSize acc >? 0
               then (totalLong + positionSize acc, totalShort)
               else if positionSize acc <? 0
                    then (totalLong, totalShort + - positionSize acc)
                    else (totalLong, totalShort)
           end) (0, 0) usedIndices.

Definition imbalance (totals : Z * Z) : Z :=
  let '(totalLong, totalShort) := totals in
  if totalLong >? totalShort then totalLong - totalShort else totalShort - totalLong.

(** I5: Open interest balance.  Info only: the result always passes. *)
Definition checkOpenInterestBalance (accounts : list IndexedAccount)
    (usedIndices : list nat) : InvariantResult :=
  let accountMap := accountMap accounts in
  let totals := openInterestTotals accountMap usedIndices in
  let diff := imbalance totals in
  {| name := "I5: Open interest balance";
     passed := true;
     expected := None; actual := None;
     message := Some ("Long: " +:+ pretty totals.1 +:+ ", Short: "
                        +:+ pretty totals.2 +:+ ", Imbalance: " +:+ pretty diff) |}.

(** The loop of I6: the first used index whose capital exceeds 2^100. *)
Fixpoint firstHugeCapital (m : gmap nat Account) (usedIndices : list nat)
    : option (nat * Z) :=
  match usedIndices with
  | [] => None
  | i :: rest =>
      match m !! i with
      | None => firstHugeCapital m rest
      | Some acc =>
          if capital acc >? 2 ^ 100 then Some (i, capital acc)
          else firstHugeCapital m rest
      end
  end.

(** I6: No negative capital balances (represented as very large u128). *)
Definition checkNoNegativeBalances (accounts : list IndexedAccount)
    (usedIndices : list nat) : InvariantResult :=
  let accountMap := accountMap accounts in
  match firstHugeCapital accountMap usedIndices with
  | Some (i, c) =>
      {| name := "I6: No negative balances";
         passed := false;
         expected := None; actual := None;
         message := Some ("Account " +:+ pretty i
                            +:+ " has suspiciously large capital: " +:+ pretty c) |}
  | None =>
      {| name := "I6: No negative balances";
         passed := true;
         expected := None; actual := None; message := None |}
  end.

(** I7: Account count consistency.  The source comment reads
    "numUsedAccounts <= maxAccounts, nextAccountId > all used IDs";
    the body compares the counts only, the BigInt [maxAccounts] after
    [Number(...)]. *)
Definition checkAccountCountConsistency (engine : EngineState) (params : RiskParams)
    (usedIndices : list nat) : InvariantResult :=
  let maxAccounts := JsNumber.ofBigInt (maxAccounts params) in
  if JsNumber.gtb (numUsedAccounts engine) maxAccounts
  then {| name := "I7: Account count consistency";
          passed := false;
          expected := None; actual := None;
          message := Some ("numUsedAccounts (" +:+ pretty (numUsedAccounts engine)
                             +:+ ") > maxAccounts (" +:+ JsNumber.toString maxAccounts
                             +:+ ")") |}
  else {| name := "I7: Account count consistency";
          passed := true;
          expected := None; actual := None;
          message := Some ("Used: " +:+ pretty (numUsedAccounts engine)
                             +:+ "/" +:+ JsNumber.toString maxAccounts) |}.

(** Run all invariant checks on a parsed snapshot.  The source fetches
    the slab account and parses it first; the parsed components and the
    outcome of the vault fetch are the inputs here. *)
Definition checkAll (getAccount : result Z) (snap : SlabSnapshot) : InvariantReport :=
  let results := [
    checkMagicNumber (header snap);
    checkBitmapConsistency (engine snap) (usedIndices snap) (accounts snap);
    checkAccountIdUniqueness (accounts snap) (usedIndices snap);
    checkCollateralConservation getAccount (accounts snap) (usedIndices snap) (engine snap);
    checkOpenInterestBalance (accounts snap) (usedIndices snap);
    checkNoNegativeBalances (accounts snap) (usedIndices snap);
    checkAccountCountConsistency (engine snap) (params snap) (usedIndices snap)
  ] in
  let passed := forallb passed results in
  {| reportPassed := passed; results := results; snapshot := snap |}.

End Invariants.

(* ===================================================================== *)
(** ** The testable properties P1, P3 and P4 of the specification *)
(* ===================================================================== *)

Module Properties.
Import Slab Invariants.

(** The accounts of the used slots, in the order of the used indices. *)
Definition usedAccounts (snap : SlabSnapshot) : list Account :=
  omap (λ i, accountMap (accounts snap) !! i) (usedIndices snap).

(** [Σ f(a)] over a list of accounts. *)
Definition sumOver (f : Account → Z) (l : list Account) : Z :=
  foldr (λ a s, f a + s) 0 l.

(** P1: [vault == Σ capital_i + insurance.balance + pnl_pos_tot + dust]
    with [|dust| ≤ 1 lamport · settlements_in_op]. *)
Definition P1_conservation (vaultBalance : Z) (snap : SlabSnapshot)
    (settlements : Z) : Prop :=
  ∃ dust : Z,
    Z.abs dust <= 1 * settlements
    ∧ vaultBalance
      = sumOver capital (usedAccounts snap)
        + balance (insuranceFund (engine snap)) + pnlPosTot (engine snap) + dust.


(** P3: [next_account_id > account_id(i)] for all used [i]; ids unique. *)
Definition P3_distinct_ids (snap : SlabSnapshot) : Prop :=
  NoDup (map accountId (usedAccounts snap)).

Definition P3_next_id_above (snap : SlabSnapshot) : Prop :=
  Forall (λ a, accountId a < nextAccountId (engine snap)) (usedAccounts snap).

(** P4: [Σ max(p_i,0) == Σ max(−p_i,0)] over all used accounts. *)
Definition P4_oi_balance (snap : SlabSnapshot) : Prop :=
  sumOver (λ a, Z.max (positionSize a) 0) (usedAccounts snap)
  = sumOver (λ a, Z.max (- positionSize a) 0) (usedAccounts snap).

End Properties.

(* ===================================================================== *)
(** ** The happy-path test script: what a run checks and reports *)
(* ===================================================================== *)

Module HappyPathRun.
Import Slab HappyPath.






End HappyPathRun.

(* ===================================================================== *)
(** ** More of Node's Buffer: signed writer, copy, comparison *)
(* ===================================================================== *)

Module BufferOps.

(** [buf.writeBigInt64LE(value, offset)]: the signed range, the same
    byte stores. *)
Definition writeBigInt64LE (b : list Z) (value : Z) (offset : nat)
  : result (list Z) :=
  _ ← Buffer.checkInt value (- 2 ^ 63) (2 ^ 63 - 1) b offset 8;
  mret (Buffer.storeLE 8 b value offset).

(** [source.copy(target, targetStart)]: as many bytes as fit. *)
Definition copy (source target : list Z) (targetStart : nat) : list Z :=
  let n := (length source `min` (length target - targetStart))%nat in
  take targetStart target ++ take n source ++ drop (targetStart + n) target.

(** [a.equals(b)] *)
Definition equals (a b : list Z) : bool := bool_decide (a = b).

(** [buf.subarray(0, n)] *)
Definition subarray0 (b : list Z) (n : nat) : list Z := take n b.

End BufferOps.

(* ===================================================================== *)
(** ** The deploy script: matcher initialisation data *)
(* ===================================================================== *)

Module DeployVamm.
Import DeployTightLp.

Record InitVammParams : Type := {
  mode : Z;
  tradingFeeBps : Z;
  baseSpreadBps : Z;
  maxTotalBps : Z;
  impactKBps : Z;
  liquidityNotionalE6 : Z;
  maxFillAbs : Z;
  maxInventoryAbs : Z
}.

(** Build InitVamm instruction data (tag=2, 66 bytes) *)
Definition buildInitVammData (params : InitVammParams) : result Buffer.t :=
  Buffer.concat [
    encU8 2;
    encU8 (mode params);
    encU32LE (tradingFeeBps params);
    encU32LE (baseSpreadBps params);
    encU32LE (maxTotalBps params);
    encU32LE (impactKBps params);
    encU128LE (liquidityNotionalE6 params);
    encU128LE (maxFillAbs params);
    encU128LE (maxInventoryAbs params)
  ].

End DeployVamm.

(* ===================================================================== *)
(** ** tests/t22-devnet-stress.ts: hand-written instruction encoders *)
(* ===================================================================== *)

Module StressTest.

Definition encodeCrank : result Buffer.t :=
  let data := Buffer.alloc 4 in
  data ← Buffer.writeUInt8 data 5 0;
  data ← Buffer.writeUInt16LE data 65535 1;
  data ← Buffer.writeUInt8 data 0 3;
  mret data.

Definition encodeSetOracleAuthority (authority : PublicKey) : result Buffer.t :=
  let data := Buffer.alloc 33 in
  data ← Buffer.writeUInt8 data 16 0;
  mret (BufferOps.copy (toBytes authority) data 1).

Definition encodePushOraclePrice (priceE6 timestamp : Z) : result Buffer.t :=
  let data := Buffer.alloc 17 in
  data ← Buffer.writeUInt8 data 17 0;
  data ← Buffer.writeBigUInt64LE data priceE6 1;
  data ← BufferOps.writeBigInt64LE data timestamp 9;
  mret data.

End StressTest.

(* ===================================================================== *)
(** ** The account-parsing test: writers into a mock slab *)
(* ===================================================================== *)

Module SlabTest.

(** Both helpers write into the caller's buffer.  The pair returned is
    the buffer as the call leaves it and the outcome: a store that has
    happened stays when a later one throws. *)
Definition writeU128LE (buf : list Z) (offset : nat) (value : Z)
  : list Z * result unit :=
  let lo := Z.land value 0xFFFFFFFFFFFFFFFF in
  let hi := Z.land (Z.shiftr value 64) 0xFFFFFFFFFFFFFFFF in
  match Buffer.writeBigUInt64LE buf lo offset with
  | Throw e => (buf, Throw e)
  | Ok buf1 =>
      match Buffer.writeBigUInt64LE buf1 hi (offset + 8) with
      | Throw e => (buf1, Throw e)
      | Ok buf2 => (buf2, Ok ())
      end
  end.

Definition writeI128LE (buf : list Z) (offset : nat) (value : Z)
  : list Z * result unit :=
  let value := if value <? 0 then Z.shiftl 1 128 + value else value in
  writeU128LE buf offset value.

End SlabTest.

(* ===================================================================== *)
(** ** src/commands/close-all-slabs.ts: the slab filter *)
(* ===================================================================== *)

Module CloseAllSlabs.

Definition PERCOLAT_MAGIC : list Z :=
  [0x50; 0x45; 0x52; 0x43; 0x4f; 0x4c; 0x41; 0x54].

Definition SLAB_SIZE : Z := 1107176.

(** The predicate of [accounts.filter(...)] on an account's data. *)
Definition hasMagic (data : list Z) : bool :=
  if (length data <? 8)%nat then false
  else BufferOps.equals (BufferOps.subarray0 data 8) PERCOLAT_MAGIC.

End CloseAllSlabs.

(* ===================================================================== *)
(** ** src/abi/accounts.ts: the remaining account orderings *)
(* ===================================================================== *)

Module AccountTables.
Import Accounts.

Definition acct (n : string) (s w : bool) : AccountSpec :=
  {| name := n; signer := s; writable := w |}.

Definition ACCOUNTS_INIT_MARKET : list AccountSpec := [
  acct "admin" true false;
  acct "slab" false true;
  acct "mint" false false;
  acct "vault" false false;
  acct "tokenProgram" false false;
  acct "clock" false false;
  acct "rent" false false;
  acct "dummyAta" false false;
  acct "systemProgram" false false
].

Definition ACCOUNTS_INIT_USER : list AccountSpec := [
  acct "user" true false;
  acct "slab" false true;
  acct "userAta" false true;
  acct "vault" false true;
  acct "tokenProgram" false false
].

Definition ACCOUNTS_INIT_LP : list AccountSpec := [
  acct "user" true false;
  acct "slab" false true;
  acct "userAta" false true;
  acct "vault" false true;
  acct "tokenProgram" false false
].

Definition ACCOUNTS_WITHDRAW_COLLATERAL : list AccountSpec := [
  acct "user" true false;
  acct "slab" false true;
  acct "vault" false true;
  acct "userAta" false true;
  acct "vaultPda" false false;
  acct "tokenProgram" false false;
  acct "clock" false false;
  acct "oracleIdx" false false
].

Definition ACCOUNTS_TRADE_NOCPI : list AccountSpec := [
  acct "user" true false;
  acct "lp" true false;
  acct "slab" false true;
  acct "clock" false false;
  acct "oracle" false false
].

Definition ACCOUNTS_LIQUIDATE_AT_ORACLE : list AccountSpec := [
  acct "unused" false false;
  acct "slab" false true;
  acct "clock" false false;
  acct "oracle" false false
].

Definition ACCOUNTS_CLOSE_ACCOUNT : list AccountSpec := [
  acct "user" true false;
  acct "slab" false true;
  acct "vault" false true;
  acct "userAta" false true;
  acct "vaultPda" false false;
  acct "tokenProgram" false false;
  acct "clock" false false;
  acct "oracle" false false
].

Definition ACCOUNTS_TOPUP_INSURANCE : list AccountSpec := [
  acct "user" true false;
  acct "slab" false true;
  acct "userAta" false true;
  acct "vault" false true;
  acct "tokenProgram" false false
].

Definition ACCOUNTS_TRADE_CPI : list AccountSpec := [
  acct "user" true false;
  acct "lpOwner" true false;
  acct "slab" false true;
  acct "clock" false false;
  acct "oracle" false false;
  acct "matcherProg" false false;
  acct "matcherCtx" false true;
  acct "lpPda" false false
].

Definition ACCOUNTS_SET_RISK_THRESHOLD : list AccountSpec := [
  acct "admin" true false;
  acct "slab" false true
].

Definition ACCOUNTS_UPDATE_ADMIN : list AccountSpec := [
  acct "admin" true false;
  acct "slab" false true
].

Definition ACCOUNTS_CLOSE_SLAB : list AccountSpec := [
  acct "admin" true true;
  acct "slab" false true
].

(** The ordering of each instruction of the ABI. *)
Definition accountsOf (ix : Instructions.Instruction) : list AccountSpec :=
  match ix with
  | Instructions.InitMarket _ => ACCOUNTS_INIT_MARKET
  | Instructions.InitUser _ => ACCOUNTS_INIT_USER
  | Instructions.InitLP _ _ _ => ACCOUNTS_INIT_LP
  | Instructions.DepositCollateral _ _ => ACCOUNTS_DEPOSIT_COLLATERAL
  | Instructions.WithdrawCollateral _ _ => ACCOUNTS_WITHDRAW_COLLATERAL
  | Instructions.KeeperCrank _ _ => ACCOUNTS_KEEPER_CRANK
  | Instructions.TradeNoCpi _ _ _ => ACCOUNTS_TRADE_NOCPI
  | Instructions.LiquidateAtOracle _ => ACCOUNTS_LIQUIDATE_AT_ORACLE
  | Instructions.CloseAccount _ => ACCOUNTS_CLOSE_ACCOUNT
  | Instructions.TopUpInsurance _ => ACCOUNTS_TOPUP_INSURANCE
  | Instructions.TradeCpi _ _ _ => ACCOUNTS_TRADE_CPI
  | Instructions.SetRiskThreshold _ => ACCOUNTS_SET_RISK_THRESHOLD
  | Instructions.UpdateAdmin _ => ACCOUNTS_UPDATE_ADMIN
  | Instructions.CloseSlab => ACCOUNTS_CLOSE_SLAB
  end.

End AccountTables.

(* ===================================================================== *)
(** ** Callers of the meta builder in the scripts *)
(* ===================================================================== *)

Module ScriptCalls.
Import Accounts AccountTables.

(** The keys the happy-path script works with. *)
Record Keys : Type := {
  payer : PublicKey;
  SLAB : PublicKey;
  ORACLE : PublicKey;
  VAULT : PublicKey;
  MATCHER_PROGRAM : PublicKey;
  MATCHER_CTX : PublicKey;
  LP_PDA : PublicKey;
  TOKEN_PROGRAM_ID : PublicKey;
  SYSVAR_CLOCK_PUBKEY : PublicKey
}.

(** The [keys] of each operation of the happy-path script. *)
Definition crankKeys (k : Keys) : result (list AccountMeta) :=
  buildAccountMetas ACCOUNTS_KEEPER_CRANK
    [payer k; SLAB k; SYSVAR_CLOCK_PUBKEY k; ORACLE k].

Definition initUserKeys (k : Keys) (userAta : PublicKey) : result (list AccountMeta) :=
  buildAccountMetas ACCOUNTS_INIT_USER
    [payer k; SLAB k; userAta; VAULT k; TOKEN_PROGRAM_ID k].

Definition depositKeys (k : Keys) (userAta : PublicKey) : result (list AccountMeta) :=
  buildAccountMetas ACCOUNTS_DEPOSIT_COLLATERAL
    [payer k; SLAB k; userAta; VAULT k; TOKEN_PROGRAM_ID k; SYSVAR_CLOCK_PUBKEY k].

Definition tradeKeys (k : Keys) : result (list AccountMeta) :=
  buildAccountMetas ACCOUNTS_TRADE_CPI
    [payer k; payer k; SLAB k; SYSVAR_CLOCK_PUBKEY k; ORACLE k;
     MATCHER_PROGRAM k; MATCHER_CTX k; LP_PDA k].

Definition withdrawKeys (k : Keys) (vaultPubkey userAta vaultPda : PublicKey)
  : result (list AccountMeta) :=
  buildAccountMetas ACCOUNTS_WITHDRAW_COLLATERAL
    [payer k; SLAB k; vaultPubkey; userAta;
     vaultPda; TOKEN_PROGRAM_ID k; SYSVAR_CLOCK_PUBKEY k; ORACLE k].

Definition closeAccountKeys (k : Keys) (vaultPubkey userAta vaultPda : PublicKey)
  : result (list AccountMeta) :=
  buildAccountMetas ACCOUNTS_CLOSE_ACCOUNT
    [payer k; SLAB k; vaultPubkey; userAta;
     vaultPda; TOKEN_PROGRAM_ID k; SYSVAR_CLOCK_PUBKEY k; ORACLE k].

Definition topUpInsuranceKeys (k : Keys) (userAta : PublicKey)
  : result (list AccountMeta) :=
  buildAccountMetas ACCOUNTS_TOPUP_INSURANCE
    [payer k; SLAB k; userAta; VAULT k; TOKEN_PROGRAM_ID k].

(** [runCrank] of scripts/verify-threshold-autoadjust.ts.  [fetched] is
    the outcome of fetching and parsing the slab config (its vault and
    collateral mint as keys); [send] stands for everything after the key
    list: building the instruction, sending and confirming.  Any
    exception is caught and answered with [false]. *)
Definition runCrank (k : Keys) (fetched : result (PublicKey * PublicKey))
    (send : list AccountMeta → result unit) : bool :=
  let attempt :=
    config ← fetched;
    keys ← buildAccountMetas ACCOUNTS_KEEPER_CRANK [
      payer k;
      SLAB k;
      config.1;
      config.2;
      ORACLE k;
      TOKEN_PROGRAM_ID k;
      SYSVAR_CLOCK_PUBKEY k
    ];
    send keys in
  match attempt with
  | Ok _ => true
  | Throw _ => false
  end.

End ScriptCalls.

(* ===================================================================== *)
(** ** src/abi/instructions.ts: the sizes its comments document *)
(* ===================================================================== *)

Module DocumentedSizes.
Import Instructions.

(** "InitMarket instruction data (256 bytes total)", "InitUser
    instruction data (9 bytes)", and so on, one comment per encoder. *)
Definition documentedSize (ix : Instruction) : nat :=
  match ix with
  | InitMarket _ => 256
  | InitUser _ => 9
  | InitLP _ _ _ => 73
  | DepositCollateral _ _ => 11
  | WithdrawCollateral _ _ => 11
  | KeeperCrank _ _ => 4
  | TradeNoCpi _ _ _ => 21
  | LiquidateAtOracle _ => 3
  | CloseAccount _ => 3
  | TopUpInsurance _ => 9
  | TradeCpi _ _ _ => 21
  | SetRiskThreshold _ => 17
  | UpdateAdmin _ => 33
  | CloseSlab => 1
  end.

End DocumentedSizes.

(* ===================================================================== *)
(** ** src/commands/best-price.ts: scanning the LP quotes *)
(* ===================================================================== *)

Module BestPriceScan.

Record LpQuote : Type := {
  lpIndex : nat;
  matcherProgram : string;
  matcherContext : string;
  bid : Z;
  ask : Z;
  edgeBps : Z;
  tradingFeeBps : Z;
  mode : string;
  capital : Z;
  position : Z
}.

(** The quote pushed for one LP: total effective spread = base spread +
    trading fee. *)
Definition lpQuote (oraclePrice : Z) (idx : nat)
    (matcherProgram matcherContext : string) (edgeBps tradingFeeBps : Z)
    (mode : string) (capital position : Z) : LpQuote :=
  let totalEdgeBps := edgeBps + tradingFeeBps in
  let q := BestPrice.computePassiveQuote oraclePrice totalEdgeBps in
  {| lpIndex := idx;
     matcherProgram := matcherProgram;
     matcherContext := matcherContext;
     bid := BestPrice.bid q;
     ask := BestPrice.ask q;
     edgeBps := totalEdgeBps;
     tradingFeeBps := tradingFeeBps;
     mode := mode;
     capital := capital;
     position := position |}.

(** [array.reduce(f)] without an initial value: the first element
    starts the fold, and an empty array throws a TypeError. *)
Definition reduce {A : Type} (f : A → A → A) (l : list A) : result A :=
  match l with
  | [] => Throw (Error "TypeError: Reduce of empty array with no initial value")
  | x :: xs => Ok (foldl f x xs)
  end.

Definition bestBuy (quotes : list LpQuote) : result LpQuote :=
  reduce (λ best q, if ask q <? ask best then q else best) quotes.

Definition bestSell (quotes : list LpQuote) : result LpQuote :=
  reduce (λ best q, if bid q >? bid best then q else best) quotes.

(** BigInt division: truncating, a RangeError on a zero divisor. *)
Definition bigintDiv (a b : Z) : result Z :=
  if b =? 0 then Throw (RangeError "Division by zero") else Ok (a ÷ b).

(** The BigInt [(bestBuy.ask - bestSell.bid) * 10000n / oraclePrice] that
    the command hands to [Number(...)] for display. *)
Definition effectiveSpreadBps (bestBuy bestSell : LpQuote) (oraclePrice : Z)
  : result Z :=
  bigintDiv ((ask bestBuy - bid bestSell) * 10000) oraclePrice.

Record Best : Type := {
  buy : LpQuote;
  sell : LpQuote;
  spreadBps : Z
}.

(** What the command reports after the quotes are collected: [None]
    stands for "No LPs found" (exit code 1). *)
Definition findBest (quotes : list LpQuote) (oraclePrice : Z)
  : result (option Best) :=
  if Nat.eqb (length quotes) 0 then Ok None
  else
    bb ← bestBuy quotes;
    bs ← bestSell quotes;
    s ← effectiveSpreadBps bb bs oraclePrice;
    mret (Some {| buy := bb; sell := bs; spreadBps := s |}).

End BestPriceScan.

(* ===================================================================== *)
(** ** scripts/dump-state.ts: margin analysis of one account *)
(* ===================================================================== *)

Module DumpState.

(** The fields of a parsed account the analysis reads. *)
Record AccountFields : Type := {
  positionSize : Z;
  entryPrice : Z;
  capital : Z
}.

Inductive Status : Type := LIQUIDATABLE | AT_RISK | SAFE.

Record Margin : Type := {
  notionalLamports : Z;
  maintenanceReq : Z;
  initialReq : Z;
  unrealizedPnl : Z;
  effectiveCapital : Z;
  marginRatioBps : Z;
  buffer : Z;
  status : Status
}.

Definition rawOraclePrice : Z := 138000000.
(** Inverted: ~7246 *)
Definition oraclePrice : Z := 1000000000000 ÷ rawOraclePrice.

(** The body of the loop over the used accounts, for one account. *)
Definition analyse (oraclePrice : Z) (params : Slab.RiskParams)
    (acc : AccountFields) : Margin :=
  let posAbs := if positionSize acc <? 0 then - positionSize acc
                else positionSize acc in
  let notionalLamports := (posAbs * oraclePrice) ÷ 1000000 in
  let maintenanceReq :=
    (notionalLamports * Slab.maintenanceMarginBps params) ÷ 10000 in
  let initialReq := (notionalLamports * Slab.initialMarginBps params) ÷ 10000 in
  let unrealizedPnl :=
    (positionSize acc * (oraclePrice - entryPrice acc)) ÷ 1000000 in
  let effectiveCapital := capital acc + unrealizedPnl in
  let marginRatioBps :=
    if notionalLamports >? 0
    then (effectiveCapital * 10000) ÷ notionalLamports
    else 99999 in
  let buffer := effectiveCapital - maintenanceReq in
  let isLiquidatable := buffer <? 0 in
  let isAtRisk :=
    negb isLiquidatable
    && (marginRatioBps <? Slab.maintenanceMarginBps params * 2) in
  let status := if isLiquidatable then LIQUIDATABLE
                else if isAtRisk then AT_RISK else SAFE in
  {| notionalLamports := notionalLamports;
     maintenanceReq := maintenanceReq;
     initialReq := initialReq;
     unrealizedPnl := unrealizedPnl;
     effectiveCapital := effectiveCapital;
     marginRatioBps := marginRatioBps;
     buffer := buffer;
     status := status |}.

End DumpState.

(* ===================================================================== *)
(** ** tests/t14-liquidation.ts: margin required for a position *)
(* ===================================================================== *)

Module LiquidationTest.

Definition calculateMarginRequired (positionSize oraclePrice marginBps : Z) : Z :=
  let absPosition := if positionSize <? 0 then - positionSize else positionSize in
  let notional := absPosition * oraclePrice in
  (notional * marginBps) ÷ 10000.

End LiquidationTest.

(* ===================================================================== *)
(** ** tests/invariants.ts: comparing two snapshots *)
(* ===================================================================== *)

Module Determinism.
Import Invariants.

(** The engine fields the comparison reads. *)
Record EngineFields : Type := {
  numUsedAccounts : Z;
  nextAccountId : Z;
  insuranceFund : Slab.InsuranceFund;
  lastFundingSlot : Z
}.

Record Snapshot : Type := {
  rawHash : string;
  engine : EngineFields;
  usedIndices : list nat
}.

(** [s.slice(0, n)] *)
Definition slice0 (s : string) (n : nat) : string := substring 0 n s.

(** [[...l].sort((x, y) => x - y).join(",")] *)
Definition sortedJoin (l : list nat) : string :=
  String.concat "," (map pretty (merge_sort Nat.le l)).

Definition ellipsis (s : string) : string :=
  slice0 s 50 +:+ (if (50 <? String.length s)%nat then "..." else "").

Definition compareSnapshots (a b : Snapshot) : list InvariantResult :=
  let aIndices := sortedJoin (usedIndices a) in
  let bIndices := sortedJoin (usedIndices b) in
  [ {| name := "D1: Hash equality";
       passed := String.eqb (rawHash a) (rawHash b);
       expected := Some (slice0 (rawHash a) 16 +:+ "...");
       actual := Some (slice0 (rawHash b) 16 +:+ "...");
       message := None |};
    {| name := "D2: Engine accounts match";
       passed := (numUsedAccounts (engine a) =? numUsedAccounts (engine b))
                 && (nextAccountId (engine a) =? nextAccountId (engine b));
       expected := Some ("numUsed=" +:+ pretty (numUsedAccounts (engine a))
                           +:+ ", nextId=" +:+ pretty (nextAccountId (engine a)));
       actual := Some ("numUsed=" +:+ pretty (numUsedAccounts (engine b))
                         +:+ ", nextId=" +:+ pretty (nextAccountId (engine b)));
       message := None |};
    {| name := "D3: Engine state match";
       passed := (Slab.balance (insuranceFund (engine a))
                    =? Slab.balance (insuranceFund (engine b)))
                 && (lastFundingSlot (engine a) =? lastFundingSlot (engine b));
       expected := Some ("insurance=" +:+ pretty (Slab.balance (insuranceFund (engine a)))
                           +:+ ", fundingSlot=" +:+ pretty (lastFundingSlot (engine a)));
       actual := Some ("insurance=" +:+ pretty (Slab.balance (insuranceFund (engine b)))
                         +:+ ", fundingSlot=" +:+ pretty (lastFundingSlot (engine b)));
       message := None |};
    {| name := "D4: Used indices match";
       passed := String.eqb aIndices bIndices;
       expected := Some (ellipsis aIndices);
       actual := Some (ellipsis bIndices);
       message := None |} ].

Definition verifyReplayDeterminism (before after : Snapshot) : bool :=
  let results := compareSnapshots before after in
  forallb passed results.

End Determinism.

(* ===================================================================== *)
(** ** Vocabulary for the range statements *)
(* ===================================================================== *)

(** [lo <= v < hi], as a test. *)
Definition inRange (lo hi v : Z) : bool := (lo <=? v) && (v <? hi).

(** The single-store encoders of the deploy script, each with the width
    in bytes of what it writes. *)
Definition unsignedEncoders : list (nat * (Z → result Buffer.t)) :=
  [ (1%nat, DeployTightLp.encU8); (2%nat, DeployTightLp.encU16LE);
    (4%nat, DeployTightLp.encU32LE); (8%nat, DeployTightLp.encU64LE) ].

(** Two fields of the same kind (and, for raw bytes, the same size). *)
Definition sameShape (f g : Taxonomy.Field) : Prop :=
  match f, g with
  | Taxonomy.Raw n _, Taxonomy.Raw m _ => n = m
  | Taxonomy.U8 _, Taxonomy.U8 _
  | Taxonomy.U16 _, Taxonomy.U16 _
  | Taxonomy.U32 _, Taxonomy.U32 _
  | Taxonomy.U64 _, Taxonomy.U64 _
  | Taxonomy.U128 _, Taxonomy.U128 _
  | Taxonomy.I128 _, Taxonomy.I128 _ => True
  | _, _ => False
  end.

(** A character [Buffer.from(_, "hex")] decodes. *)
Definition isHexDigit (c : ascii) : Prop := is_Some (Buffer.hexDigit c).

(** The parameters [buildInitVammData] can encode: mode a byte, the four
    rates u32, the three amounts u128. *)
Definition initVammParamsOk (p : DeployVamm.InitVammParams) : bool :=
  inRange 0 (2 ^ 8) (DeployVamm.mode p)
  && inRange 0 (2 ^ 32) (DeployVamm.tradingFeeBps p)
  && inRange 0 (2 ^ 32) (DeployVamm.baseSpreadBps p)
  && inRange 0 (2 ^ 32) (DeployVamm.maxTotalBps p)
  && inRange 0 (2 ^ 32) (DeployVamm.impactKBps p)
  && inRange 0 (2 ^ 128) (DeployVamm.liquidityNotionalE6 p)
  && inRange 0 (2 ^ 128) (DeployVamm.maxFillAbs p)
  && inRange 0 (2 ^ 128) (DeployVamm.maxInventoryAbs p).

(** The layout the comment of [buildInitVammData] gives:
    tag(1) + mode(1) + trading_fee_bps(4) + base_spread_bps(4) +
    max_total_bps(4) + impact_k_bps(4) + liquidity_notional_e6(16) +
    max_fill_abs(16) + max_inventory_abs(16). *)
Definition initVammLayout (p : DeployVamm.InitVammParams) : list Z :=
  [2; DeployVamm.mode p]
    ++ LE.bytes 4 (DeployVamm.tradingFeeBps p)
    ++ LE.bytes 4 (DeployVamm.baseSpreadBps p)
    ++ LE.bytes 4 (DeployVamm.maxTotalBps p)
    ++ LE.bytes 4 (DeployVamm.impactKBps p)
    ++ LE.bytes 16 (DeployVamm.liquidityNotionalE6 p)
    ++ LE.bytes 16 (DeployVamm.maxFillAbs p)
    ++ LE.bytes 16 (DeployVamm.maxInventoryAbs p).

(** Strings without a comma. *)
Definition commaFree (s : string) : Prop := ∀ r1 r2, s ≠ r1 +:+ String "," r2.

(** What follows an element in a joined string: nothing, or a comma. *)
Definition rest (r : string) : Prop := r = "" ∨ ∃ r', r = String "," r'.

(** A quote as the scan of best-price builds it at oracle price [p]: bid
    and ask are the passive quote at the LP's total edge, which is not
    negative. *)
Definition passiveAt (p : Z) (q : BestPriceScan.LpQuote) : Prop :=
  0 <= BestPriceScan.edgeBps q
  ∧ BestPriceScan.bid q
    = BestPrice.bid (BestPrice.computePassiveQuote p (BestPriceScan.edgeBps q))
  ∧ BestPriceScan.ask q
    = BestPrice.ask (BestPrice.computePassiveQuote p (BestPriceScan.edgeBps q)).


(* ===================================================================== *)
(** * Proofs *)
(* ===================================================================== *)

(** ** Little-endian byte strings *)

Section LittleEndianFacts.

Lemma le_bytes_length n v : length (LE.bytes n v) = n.
Proof. revert v; induction n as [|n IH]; intros v; simpl; [done | by rewrite IH]. Qed.

Lemma le_bytes_are_bytes n v : Forall LE.is_byte (LE.bytes n v).
Proof.
  revert v; induction n as [|n IH]; intros v; simpl; constructor; [|apply IH].
  unfold LE.is_byte. apply Z.mod_pos_bound. lia.
Qed.

Lemma le_value_bytes n v : LE.value (LE.bytes n v) = v mod 256 ^ Z.of_nat n.
Proof.
  revert v; induction n as [|n IH]; intros v.
  - simpl. by rewrite Z.mod_1_r.
  - cbn [LE.bytes LE.value]. rewrite IH, Nat2Z.inj_succ, Z.pow_succ_r by lia.
    rewrite Z.rem_mul_r by lia. lia.
Qed.

Lemma le_bytes_mod n v : LE.bytes n (v mod 256 ^ Z.of_nat n) = LE.bytes n v.
Proof.
  revert v; induction n as [|n IH]; intros v; [done|].
  cbn [LE.bytes]. rewrite Nat2Z.inj_succ, Z.pow_succ_r by lia.
  assert (Hp : 0 < 256 ^ Z.of_nat n) by (apply Z.pow_pos_nonneg; lia).
  rewrite Z.rem_mul_r by lia. f_equal.
  - rewrite (Z.mul_comm 256), Z.mod_add by lia. apply Z.mod_mod. lia.
  - rewrite <- (IH (v / 256)). f_equal.
    rewrite (Z.mul_comm 256), Z.div_add by lia.
    rewrite (Z.div_small (v mod 256)) by (apply Z.mod_pos_bound; lia). lia.
Qed.

Lemma le_bytes_app n m v :
  LE.bytes (n + m) v = LE.bytes n v ++ LE.bytes m (v / 256 ^ Z.of_nat n).
Proof.
  revert v; induction n as [|n IH]; intros v.
  - simpl. by rewrite Z.div_1_r.
  - cbn [Nat.add LE.bytes app]. rewrite IH. do 2 f_equal.
    rewrite Nat2Z.inj_succ, Z.pow_succ_r by lia.
    rewrite Z.div_div by (try apply Z.pow_pos_nonneg; lia). done.
Qed.

End LittleEndianFacts.

(** ** Buffer writers against the little-endian byte strings *)

Section BufferFacts.

Lemma land_255 v : Z.land v 255 = v mod 256.
Proof. change 255 with (Z.ones 8). rewrite Z.land_ones by lia. done. Qed.

Lemma shiftr_8 v : Z.shiftr v 8 = v / 256.
Proof. rewrite Z.shiftr_div_pow2 by lia. done. Qed.

Lemma land_mask64 v : Z.land v DeployTightLp.MASK64 = v mod 2 ^ 64.
Proof.
  change DeployTightLp.MASK64 with (Z.ones 64). rewrite Z.land_ones by lia. done.
Qed.

(** Storing [n] bytes over a window of [n] cells rewrites exactly that window. *)
Lemma storeLE_window n (pre old post : list Z) v :
  length old = n →
  Buffer.storeLE n (pre ++ old ++ post) v (length pre)
  = pre ++ LE.bytes n v ++ post.
Proof.
  revert pre old v. induction n as [|n IH]; intros pre old v Hlen.
  - destruct old; [done | discriminate].
  - destruct old as [|o old]; [discriminate|]. injection Hlen as Hlen.
    cbn [Buffer.storeLE LE.bytes]. unfold Buffer.store.
    rewrite insert_app_r_alt, Nat.sub_diag by lia. cbn [app]. simpl (<[_:=_]> _).
    rewrite land_255, shiftr_8.
    replace (S (length pre)) with (length (pre ++ [v mod 256]))
      by (rewrite length_app; simpl; lia).
    change (pre ++ v mod 256 :: old ++ post)
      with (pre ++ [v mod 256] ++ old ++ post).
    rewrite (app_assoc pre [v mod 256]).
    rewrite (IH _ old _ Hlen). by rewrite <- app_assoc.
Qed.

Lemma writeUIntLE_window n (pre old post : list Z) v :
  length old = n →
  0 <= v < 2 ^ (8 * Z.of_nat n) →
  Buffer.writeUIntLE n (pre ++ old ++ post) v (length pre)
  = Ok (pre ++ LE.bytes n v ++ post).
Proof.
  intros Hlen Hv. unfold Buffer.writeUIntLE, Buffer.checkInt.
  replace ((v >? 2 ^ (8 * Z.of_nat n) - 1) || (v <? 0)) with false
    by (symmetry; apply orb_false_iff; split; lia).
  replace (length (pre ++ old ++ post) <? length pre + n)%nat with false
    by (symmetry; apply Nat.ltb_ge; rewrite !length_app; lia).
  cbn. by rewrite storeLE_window.
Qed.

Lemma writeUIntLE_range n b v off :
  ¬ (0 <= v < 2 ^ (8 * Z.of_nat n)) →
  Buffer.writeUIntLE n b v off = Throw (RangeError "ERR_OUT_OF_RANGE").
Proof.
  intros Hv. unfold Buffer.writeUIntLE, Buffer.checkInt.
  replace ((v >? 2 ^ (8 * Z.of_nat n) - 1) || (v <? 0)) with true; [done|].
  symmetry. apply orb_true_iff. lia.
Qed.

Lemma writeUIntLE_alloc n v :
  0 <= v < 2 ^ (8 * Z.of_nat n) →
  Buffer.writeUIntLE n (Buffer.alloc n) v 0 = Ok (LE.bytes n v).
Proof.
  intros Hv.
  pose proof (writeUIntLE_window n [] (Buffer.alloc n) [] v) as H.
  rewrite app_nil_r in H. cbn [app length] in H. rewrite H; [|by apply length_replicate|done].
  by rewrite app_nil_r.
Qed.

Lemma encU8_ok v : 0 <= v < 256 → DeployTightLp.encU8 v = Ok [v].
Proof.
  intros Hv. unfold DeployTightLp.encU8, Buffer.writeUInt8.
  rewrite writeUIntLE_alloc by (simpl; lia). simpl.
  by rewrite Z.mod_small.
Qed.

Lemma encU16LE_ok v : 0 <= v < 2 ^ 16 → DeployTightLp.encU16LE v = Ok (LE.bytes 2 v).
Proof. intros Hv. apply writeUIntLE_alloc. done. Qed.

Lemma encU32LE_ok v : 0 <= v < 2 ^ 32 → DeployTightLp.encU32LE v = Ok (LE.bytes 4 v).
Proof. intros Hv. apply writeUIntLE_alloc. done. Qed.

Lemma encU64LE_ok v : 0 <= v < 2 ^ 64 → DeployTightLp.encU64LE v = Ok (LE.bytes 8 v).
Proof. intros Hv. apply writeUIntLE_alloc. done. Qed.

(** Two 64-bit stores into a zeroed 16-byte buffer. *)
Lemma write_two_words lo hi :
  0 <= lo < 2 ^ 64 → 0 <= hi < 2 ^ 64 →
  (b ← Buffer.writeBigUInt64LE (Buffer.alloc 16) lo 0;
   Buffer.writeBigUInt64LE b hi 8)
  = Ok (LE.bytes 8 lo ++ LE.bytes 8 hi).
Proof.
  intros Hlo Hhi. unfold Buffer.writeBigUInt64LE.
  pose proof (writeUIntLE_window 8 [] (Buffer.alloc 8) (Buffer.alloc 8) lo) as H1.
  cbn [app length] in H1. change (Buffer.alloc 8 ++ Buffer.alloc 8) with (Buffer.alloc 16) in H1.
  rewrite H1 by done. cbn [mbind result_bind].
  pose proof (writeUIntLE_window 8 (LE.bytes 8 lo) (Buffer.alloc 8) [] hi) as H2.
  rewrite le_bytes_length, !app_nil_r in H2. by rewrite H2.
Qed.

Lemma encU128LE_ok v :
  0 <= v < 2 ^ 128 → DeployTightLp.encU128LE v = Ok (LE.bytes 16 v).
Proof.
  intros Hv. unfold DeployTightLp.encU128LE.
  rewrite land_mask64, Z.shiftr_div_pow2 by lia.
  rewrite write_two_words.
  - rewrite le_bytes_mod. change 16%nat with (8 + 8)%nat. by rewrite le_bytes_app.
  - apply Z.mod_pos_bound. lia.
  - split; [apply Z.div_pos; lia|]. apply Z.div_lt_upper_bound; lia.
Qed.

(** [encI128LE] never throws: both words are masked, so every BigInt is
    reduced modulo [2 ^ 128]. *)
Lemma encI128LE_total v :
  DeployTightLp.encI128LE v = Ok (LE.bytes 16 (v mod 2 ^ 128)).
Proof.
  unfold DeployTightLp.encI128LE.
  set (u := if v <? 0 then Z.shiftl 1 128 + v else v).
  assert (Hu : u mod 2 ^ 128 = v mod 2 ^ 128).
  { subst u. destruct (v <? 0); [|done].
    rewrite Z.shiftl_1_l. rewrite Z.add_comm.
    rewrite <- (Z.mul_1_l (2 ^ 128)) at 1. rewrite Z.mod_add by lia. done. }
  rewrite !land_mask64, Z.shiftr_div_pow2 by lia.
  rewrite write_two_words by (apply Z.mod_pos_bound; lia).
  rewrite <- Hu. change (2 ^ 128) with (256 ^ Z.of_nat 16).
  rewrite (le_bytes_mod 16 u).
  change 16%nat with (8 + 8)%nat. rewrite le_bytes_app.
  change (2 ^ 64) with (256 ^ Z.of_nat 8).
  by rewrite !le_bytes_mod.
Qed.

End BufferFacts.

(** ** The signed 128-bit encoder *)

Section SignedEncoder.

(** The vectors of test/abi.test.ts, on the deploy script's encoder. *)
Example encI128LE_vector_minus_one :
  DeployTightLp.encI128LE (-1) = Ok (replicate 16 255).
Proof. vm_compute. reflexivity. Qed.

Example encI128LE_vector_minus_million :
  DeployTightLp.encI128LE (-1000000)
  = Ok [192; 189; 240; 255; 255; 255; 255; 255; 255; 255; 255; 255; 255; 255; 255; 255].
Proof. vm_compute. reflexivity. Qed.

Example encI128LE_vector_million :
  DeployTightLp.encI128LE 1000000
  = Ok [64; 66; 15; 0; 0; 0; 0; 0; 0; 0; 0; 0; 0; 0; 0; 0].
Proof. vm_compute. reflexivity. Qed.

(** C9. For every integer [v] with [-2^127 <= v < 2^127], [encI128LE]
    returns (it does not throw) exactly 16 bytes; read as an unsigned
    little-endian number they are [v] for [v >= 0] and [2^128 + v] for
    [v < 0], and read as a two's-complement i128 they are [v] again. *)
Theorem encI128LE_roundtrip (v : Z) :
  - 2 ^ 127 <= v < 2 ^ 127 →
  ∃ bs : list Z,
    DeployTightLp.encI128LE v = Ok bs
    ∧ length bs = 16%nat
    ∧ Forall LE.is_byte bs
    ∧ LE.value bs = (if v <? 0 then 2 ^ 128 + v else v)
    ∧ LE.decI128 bs = v.
Proof.
  intros Hv. exists (LE.bytes 16 (v mod 2 ^ 128)).
  split; [apply encI128LE_total|].
  split; [apply le_bytes_length|].
  split; [apply le_bytes_are_bytes|].
  assert (Hval : LE.value (LE.bytes 16 (v mod 2 ^ 128))
                 = if v <? 0 then 2 ^ 128 + v else v).
  { rewrite le_value_bytes. change (256 ^ Z.of_nat 16) with (2 ^ 128).
    rewrite Z.mod_mod by lia.
    destruct (Z.ltb_spec v 0).
    - rewrite <- (Z.mod_add v 1) by lia. rewrite Z.mod_small; lia.
    - rewrite Z.mod_small; lia. }
  split; [exact Hval|].
  unfold LE.decI128. rewrite Hval.
  destruct (Z.ltb_spec v 0).
  - destruct (Z.ltb_spec (2 ^ 128 + v) (2 ^ 127)); lia.
  - destruct (Z.ltb_spec v (2 ^ 127)); lia.
Qed.

Lemma encI128LE_roundtrip_witness :
  ∃ bs : list Z,
    DeployTightLp.encI128LE (-1000000) = Ok bs
    ∧ length bs = 16%nat
    ∧ Forall LE.is_byte bs
    ∧ LE.value bs = (if -1000000 <? 0 then 2 ^ 128 + -1000000 else -1000000)
    ∧ LE.decI128 bs = -1000000.
Proof. apply (encI128LE_roundtrip (-1000000)). lia. Defined.

End SignedEncoder.

(** ** Instruction encoders against the operation taxonomy *)

(** The deploy script's encoders keep the contract of the interface. *)
#[global] Instance deploy_little_endian : Encode.LittleEndian Encode.deployPrimitives.
Proof.
  split; cbn [Encode.encU8 Encode.encU16 Encode.encU32 Encode.encU64
              Encode.encU128 Encode.encI128 Encode.encPubkey
              Encode.deployPrimitives].
  - intros v Hv. rewrite encU8_ok by lia. cbn. by rewrite Z.mod_small by lia.
  - apply encU16LE_ok.
  - apply encU32LE_ok.
  - apply encU64LE_ok.
  - apply encU128LE_ok.
  - intros v _. apply encI128LE_total.
  - reflexivity.
Qed.

Section EncoderLayout.
Import Encode Instructions Taxonomy.
Context {P : Primitives} {PLE : LittleEndian P}.

Lemma fieldBytes_length f : fieldOk f → length (fieldBytes f) = fieldSize f.
Proof. destruct f; intros H; [exact H | apply le_bytes_length ..]. Qed.

Lemma packed_length tag fs :
  Forall fieldOk fs → length (packed (tag, fs)) = packedSize (tag, fs).
Proof.
  unfold packed, packedSize. cbn [fst snd length]. intros H. f_equal.
  induction H as [|f fs Hf _ IH]; [done|].
  cbn [map concat sum_list sum_list_with]. rewrite length_app, IH.
  by rewrite fieldBytes_length.
Qed.

Lemma encode_U8 v : fieldOk (U8 v) → encU8 v = Ok (fieldBytes (U8 v)).
Proof. intros H. apply encU8_le, H. Qed.

Lemma encode_tag v : 0 <= v < 256 → encU8 v = Ok [v].
Proof.
  intros H. rewrite encU8_le by lia. cbn. by rewrite Z.mod_small by lia.
Qed.

Lemma encode_U16 v : fieldOk (U16 v) → encU16 v = Ok (fieldBytes (U16 v)).
Proof. intros H. apply encU16_le, H. Qed.

Lemma encode_U32 v : fieldOk (U32 v) → encU32 v = Ok (fieldBytes (U32 v)).
Proof. intros H. apply encU32_le, H. Qed.

Lemma encode_U64 v : fieldOk (U64 v) → encU64 v = Ok (fieldBytes (U64 v)).
Proof. intros H. apply encU64_le, H. Qed.

Lemma encode_U128 v : fieldOk (U128 v) → encU128 v = Ok (fieldBytes (U128 v)).
Proof. intros H. apply encU128_le, H. Qed.

Lemma encode_I128 v : fieldOk (I128 v) → encI128 v = Ok (fieldBytes (I128 v)).
Proof. intros H. apply encI128_le, H. Qed.

Lemma encodeFeedId_ok s :
  String.length (stripHexPrefix s) = 64%nat →
  encodeFeedId s = Ok (Buffer.fromHex (stripHexPrefix s)).
Proof. intros H. unfold encodeFeedId. by rewrite H. Qed.

(** Split the well-formedness of a row into one fact per field. *)
Ltac split_fields :=
  repeat match goal with
         | H : Forall fieldOk (_ :: _) |- _ =>
             apply Forall_cons in H; destruct H as [? H]
         | H : Forall fieldOk [] |- _ => clear H
         end.

(** Replace every primitive call by the bytes of its field. *)
Ltac encode_fields :=
  unfold IX_TAG.InitMarket, IX_TAG.InitUser, IX_TAG.InitLP,
    IX_TAG.DepositCollateral, IX_TAG.WithdrawCollateral, IX_TAG.KeeperCrank,
    IX_TAG.TradeNoCpi, IX_TAG.LiquidateAtOracle, IX_TAG.CloseAccount,
    IX_TAG.TopUpInsurance, IX_TAG.TradeCpi, IX_TAG.SetRiskThreshold,
    IX_TAG.UpdateAdmin, IX_TAG.CloseSlab;
  rewrite ?encode_tag by lia;
  rewrite ?encPubkey_bytes;
  rewrite ?encode_U16, ?encode_U32, ?encode_U64, ?encode_U128, ?encode_I128
    by assumption.

Lemma encode_follows_row ix : argsOk ix → encode ix = Ok (packed (row ix)).
Proof.
  intros [Hf Hfeed]. destruct ix; cbn [row snd] in Hf; cbn [encode];
    unfold riskParams in Hf; cbn [app] in Hf; split_fields.
  - unfold encodeInitMarket. rewrite encodeFeedId_ok by exact Hfeed.
    encode_fields. rewrite (encode_U8 (invert args)) by assumption. reflexivity.
  - unfold encodeInitUser. encode_fields. reflexivity.
  - unfold encodeInitLP. encode_fields. reflexivity.
  - unfold encodeDepositCollateral. encode_fields. reflexivity.
  - unfold encodeWithdrawCollateral. encode_fields. reflexivity.
  - unfold encodeKeeperCrank. encode_fields.
    change (if allowPanic then 1 else 0) with (boolByte allowPanic).
    rewrite (encode_U8 (boolByte allowPanic)) by assumption. reflexivity.
  - unfold encodeTradeNoCpi. encode_fields. reflexivity.
  - unfold encodeLiquidateAtOracle. encode_fields. reflexivity.
  - unfold encodeCloseAccount. encode_fields. reflexivity.
  - unfold encodeTopUpInsurance. encode_fields. reflexivity.
  - unfold encodeTradeCpi. encode_fields. reflexivity.
  - unfold encodeSetRiskThreshold. encode_fields. reflexivity.
  - unfold encodeUpdateAdmin. encode_fields. reflexivity.
  - unfold encodeCloseSlab. encode_fields. reflexivity.
Qed.

End EncoderLayout.

Section EncoderTheorem.
Import Encode Instructions Taxonomy.

Lemma buildKeeperCrankData_bytes c :
  0 <= c <= 65535 →
  DeployTightLp.buildKeeperCrankData c = Ok [5; c mod 256; c / 256; 0].
Proof.
  intros Hc. unfold DeployTightLp.buildKeeperCrankData.
  rewrite !encU8_ok, encU16LE_ok by lia. cbn.
  rewrite (Z.mod_small (c / 256)); [done|].
  split; [apply Z.div_pos; lia | apply Z.div_lt_upper_bound; lia].
Qed.

Lemma buildTradeCpiData_row l u s :
  0 <= l <= 65535 → 0 <= u <= 65535 →
  DeployTightLp.buildTradeCpiData l u s = Ok (packed (row (TradeCpi l u s))).
Proof.
  intros Hl Hu. unfold DeployTightLp.buildTradeCpiData.
  rewrite encU8_ok, !encU16LE_ok, encI128LE_total by lia. reflexivity.
Qed.

Lemma high_byte c : 0 <= c < 2 ^ 16 → (c / 256) mod 256 = c / 256.
Proof.
  intros Hc. apply Z.mod_small.
  split; [apply Z.div_pos; lia | apply Z.div_lt_upper_bound; lia].
Qed.

Lemma twos_complement_128 s :
  - 2 ^ 127 <= s < 2 ^ 127 →
  s mod 2 ^ 128 = (if s <? 0 then 2 ^ 128 + s else s).
Proof.
  intros Hs. destruct (Z.ltb_spec s 0).
  - rewrite <- (Z.mod_add s 1) by lia. rewrite Z.mod_small; lia.
  - rewrite Z.mod_small; lia.
Qed.

(** What [argsOk] asks of the two instructions the claim singles out. *)
Lemma argsOk_KeeperCrank c p : argsOk (KeeperCrank c p) ↔ 0 <= c <= 65535.
Proof.
  unfold argsOk. cbn [row snd]. split.
  - intros [Hf _]. apply Forall_cons in Hf as [Hc _]. cbn in Hc. lia.
  - intros Hc. split; [|exact I].
    repeat (apply Forall_cons; split; [destruct p; cbn; lia|]). apply Forall_nil_2.
Qed.

Lemma argsOk_TradeCpi l u s :
  argsOk (TradeCpi l u s)
  ↔ 0 <= l <= 65535 ∧ 0 <= u <= 65535 ∧ - 2 ^ 127 <= s < 2 ^ 127.
Proof.
  unfold argsOk. cbn [row snd]. split.
  - intros [Hf _]. apply Forall_cons in Hf as [Hl Hf].
    apply Forall_cons in Hf as [Hu Hf]. apply Forall_cons in Hf as [Hs _].
    cbn in Hl, Hu, Hs. lia.
  - intros (Hl & Hu & Hs). split; [|exact I].
    repeat (apply Forall_cons; split; [cbn; lia|]). apply Forall_nil_2.
Qed.

(** Past the u16 range the writer throws instead of wrapping. *)
Example buildKeeperCrankData_out_of_range :
  DeployTightLp.buildKeeperCrankData 65536 = Throw (RangeError "ERR_OUT_OF_RANGE").
Proof. vm_compute. reflexivity. Qed.

(** The crank of the happy-path script: permissionless caller 0xFFFF. *)
Example encodeKeeperCrank_permissionless :
  encodeKeeperCrank (P := deployPrimitives) 65535 false = Ok [5; 255; 255; 0].
Proof. vm_compute. reflexivity. Qed.

(** The KeeperCrank case of test/abi.test.ts. *)
Example encodeKeeperCrank_vector :
  encodeKeeperCrank (P := deployPrimitives) 1 true = Ok [5; 1; 0; 1].
Proof. vm_compute. reflexivity. Qed.

(** InitMarket with a Pyth feed id of 64 hexadecimal digits: 256 bytes. *)
Example encodeInitMarket_length :
  let key b := {| toBytes := replicate 32 b |} in
  let args := {| admin := key 1; collateralMint := key 2;
                 indexFeedId :=
                   "0xe62df6c8b4a85fe1a67db44dc12de5db330f7ac66b72dc658afedf0f4a415b43";
                 maxStalenessSecs := 60; confFilterBps := 50; invert := 1;
                 unitScale := 0; warmupPeriodSlots := 10;
                 maintenanceMarginBps := 500; initialMarginBps := 1000;
                 tradingFeeBps := 10; maxAccounts := 64;
                 newAccountFee := 1000000; riskReductionThreshold := 0;
                 maintenanceFeePerSlot := 0; maxCrankStalenessSlots := 200;
                 liquidationFeeBps := 100; liquidationFeeCap := 1000000000;
                 liquidationBufferBps := 50; minLiquidationAbs := 100000 |} in
  (bs ← encodeInitMarket (P := deployPrimitives) args; mret (length bs))
  = Ok 256%nat
  ∧ packedSize (row (InitMarket args)) = 256%nat.
Proof. split; vm_compute; reflexivity. Qed.

(** A feed id of the right length that is not hexadecimal is accepted by
    the length test and decodes to no byte at all; [argsOk] leaves such
    arguments out. *)
Example encodeFeedId_not_hex :
  encodeFeedId (string_of_list_ascii (replicate 64 "z"%char)) = Ok [].
Proof. vm_compute. reflexivity. Qed.

(** The vector of test/abi.test.ts for TradeNoCpi with a negative size. *)
Example encodeTradeNoCpi_negative :
  encodeTradeNoCpi (P := deployPrimitives) 0 1 (-1000000)
  = Ok ([6; 0; 0; 1; 0] ++
        [192; 189; 240; 255; 255; 255; 255; 255;
         255; 255; 255; 255; 255; 255; 255; 255]).
Proof. vm_compute. reflexivity. Qed.

(** C2. For every instruction of the operation taxonomy whose arguments
    fit the field types of its row, the encoder of src/abi/instructions.ts
    (over primitives that write little-endian) returns the row's tag
    byte followed by the row's fields packed little-endian in the listed
    order, and the length is one plus the field sizes.  In particular
    KeeperCrank is the 4 bytes tag 5, caller_idx low byte, caller_idx
    high byte, allow_panic, and TradeCpi is the 21 bytes tag 10, lp_idx,
    user_idx (u16 LE each) and the size as i128 LE; the deploy script's
    own builders produce the same bytes (with allow_panic fixed to 0). *)
Theorem encoders_follow_taxonomy
    (P : Primitives) (PLE : LittleEndian P) (ix : Instruction) :
  argsOk ix →
  encode ix = Ok (packed (row ix))
  ∧ length (packed (row ix)) = packedSize (row ix)
  ∧ match ix with
    | KeeperCrank c p =>
        packed (row ix) = [5; c mod 256; c / 256; boolByte p]
        ∧ DeployTightLp.buildKeeperCrankData c = Ok [5; c mod 256; c / 256; 0]
    | TradeCpi l u s =>
        packed (row ix)
        = [10; l mod 256; l / 256; u mod 256; u / 256]
            ++ LE.bytes 16 (if s <? 0 then 2 ^ 128 + s else s)
        ∧ length (packed (row ix)) = 21%nat
        ∧ DeployTightLp.buildTradeCpiData l u s = Ok (packed (row ix))
    | _ => True
    end.
Proof.
  intros Hok. split; [by apply encode_follows_row|].
  assert (Hlen : length (packed (row ix)) = packedSize (row ix)).
  { destruct (row ix) as [tag fs] eqn:E. apply packed_length.
    destruct Hok as [Hf _]. by rewrite E in Hf. }
  split; [exact Hlen|].
  destruct ix; try exact I; destruct Hok as [Hf _]; cbn [row snd] in Hf.
  - apply Forall_cons in Hf as [Hc _]. cbn in Hc. split.
    + unfold packed. cbn. rewrite (high_byte callerIdx) by lia.
      destruct allowPanic; reflexivity.
    + apply buildKeeperCrankData_bytes. lia.
  - apply Forall_cons in Hf as [Hl Hf]. apply Forall_cons in Hf as [Hu Hf].
    apply Forall_cons in Hf as [Hs _]. cbn in Hl, Hu, Hs.
    split; [|split].
    + unfold packed. cbn [row fst snd map concat fieldBytes fieldSize app LE.bytes].
      rewrite (high_byte lpIdx), (high_byte userIdx) by lia.
      rewrite twos_complement_128 by lia. rewrite ?app_nil_r. reflexivity.
    + rewrite Hlen. reflexivity.
    + apply buildTradeCpiData_row; lia.
Qed.

Lemma encoders_follow_taxonomy_witness :
  encode (P := deployPrimitives) (TradeCpi 2 3 (-500))
  = Ok (packed (row (TradeCpi 2 3 (-500))))
  ∧ length (packed (row (TradeCpi 2 3 (-500))))
    = packedSize (row (TradeCpi 2 3 (-500)))
  ∧ packed (row (TradeCpi 2 3 (-500)))
    = [10; 2 mod 256; 2 / 256; 3 mod 256; 3 / 256]
        ++ LE.bytes 16 (if -500 <? 0 then 2 ^ 128 + -500 else -500)
  ∧ length (packed (row (TradeCpi 2 3 (-500)))) = 21%nat
  ∧ DeployTightLp.buildTradeCpiData 2 3 (-500)
    = Ok (packed (row (TradeCpi 2 3 (-500)))).
Proof.
  apply (encoders_follow_taxonomy deployPrimitives deploy_little_endian
           (TradeCpi 2 3 (-500))).
  split; [|exact I].
  repeat (apply Forall_cons; split; [cbn; lia|]). apply Forall_nil_2.
Defined.

End EncoderTheorem.

(** ** Account metas *)

Section AccountMetas.
Import Accounts.

(** The deposit of the happy-path script hands six keys to the five
    accounts of DepositCollateral: the builder throws. *)
Example buildAccountMetas_deposit_six_keys (k : PublicKey) :
  buildAccountMetas ACCOUNTS_DEPOSIT_COLLATERAL [k; k; k; k; k; k]
  = Throw (Error "Account count mismatch: expected 5, got 6").
Proof. vm_compute. reflexivity. Qed.

(** C10. [buildAccountMetas] throws exactly when the two lists differ in
    length; otherwise it returns a list as long as the spec whose i-th
    element carries the i-th key, the i-th spec's signer flag and the
    i-th spec's writable flag. *)
Theorem buildAccountMetas_spec (spec : list AccountSpec) (keys : list PublicKey) :
  (threw (buildAccountMetas spec keys) = true ↔ length keys ≠ length spec)
  ∧ (length keys = length spec →
     ∃ metas : list AccountMeta,
       buildAccountMetas spec keys = Ok metas
       ∧ length metas = length spec
       ∧ ∀ (i : nat) (s : AccountSpec) (k : PublicKey),
           spec !! i = Some s → keys !! i = Some k →
           metas !! i = Some {| pubkey := Some k;
                                isSigner := signer s;
                                isWritable := writable s |}).
Proof.
  unfold buildAccountMetas. split.
  - destruct (Nat.eqb_spec (length keys) (length spec)) as [E|E]; cbn; split;
      intros H; try done.
  - intros E. rewrite E, Nat.eqb_refl. cbn. eexists. split; [reflexivity|].
    split; [apply length_imap|].
    intros i s k Hs Hk. rewrite list_lookup_imap, Hs. cbn. by rewrite Hk.
Qed.

Lemma buildAccountMetas_spec_witness :
  ∃ metas : list AccountMeta,
    buildAccountMetas ACCOUNTS_KEEPER_CRANK
      (map (λ b, {| toBytes := replicate 32 b |}) [1; 2; 3; 4]) = Ok metas
    ∧ length metas = length ACCOUNTS_KEEPER_CRANK
    ∧ ∀ (i : nat) (s : AccountSpec) (k : PublicKey),
        ACCOUNTS_KEEPER_CRANK !! i = Some s →
        map (λ b, {| toBytes := replicate 32 b |}) [1; 2; 3; 4] !! i = Some k →
        metas !! i = Some {| pubkey := Some k;
                             isSigner := signer s;
                             isWritable := writable s |}.
Proof.
  apply (proj2 (buildAccountMetas_spec ACCOUNTS_KEEPER_CRANK
                  (map (λ b, {| toBytes := replicate 32 b |}) [1; 2; 3; 4]))).
  reflexivity.
Defined.

End AccountMetas.

(** ** Passive quote *)

Section PassiveQuote.
Import BestPrice.

Example computePassiveQuote_50bps :
  computePassiveQuote 9623 PASSIVE_MATCHER_EDGE_BPS = {| bid := 9574; ask := 9672 |}.
Proof. reflexivity. Qed.

(** C8. For every oracle price [p >= 0] and edge [0 <= e <= 10000],
    [computePassiveQuote] returns [bid = floor(p (10000 - e) / 10000)] and
    [ask = ceil(p (10000 + e) / 10000)], the latter through
    [(x + denom - 1) / denom]; hence [bid <= p <= ask]. *)
Theorem computePassiveQuote_floor_ceil (p e : Z) :
  0 <= p → 0 <= e <= 10000 →
  let q := computePassiveQuote p e in
  bid q = p * (10000 - e) / 10000
  ∧ bid q * 10000 <= p * (10000 - e) < (bid q + 1) * 10000
  ∧ ask q = (p * (10000 + e) + 10000 - 1) / 10000
  ∧ (ask q - 1) * 10000 < p * (10000 + e) <= ask q * 10000
  ∧ bid q <= p <= ask q.
Proof.
  intros Hp He q. subst q. unfold computePassiveQuote, BPS_DENOM. cbn [bid ask].
  rewrite !Z.quot_div_nonneg by nia.
  set (b := p * (10000 - e) / 10000).
  set (a := (p * (10000 + e) + 10000 - 1) / 10000).
  assert (Hb : 10000 * b <= p * (10000 - e) < 10000 * (b + 1)).
  { subst b. pose proof (Z.mul_div_le (p * (10000 - e)) 10000).
    pose proof (Z.mul_succ_div_gt (p * (10000 - e)) 10000). lia. }
  assert (Ha : 10000 * a <= p * (10000 + e) + 10000 - 1 < 10000 * (a + 1)).
  { subst a. pose proof (Z.mul_div_le (p * (10000 + e) + 10000 - 1) 10000).
    pose proof (Z.mul_succ_div_gt (p * (10000 + e) + 10000 - 1) 10000). lia. }
  repeat split; try reflexivity; nia.
Qed.

Lemma computePassiveQuote_floor_ceil_witness :
  let q := computePassiveQuote 9623 50 in
  bid q = 9623 * (10000 - 50) / 10000
  ∧ bid q * 10000 <= 9623 * (10000 - 50) < (bid q + 1) * 10000
  ∧ ask q = (9623 * (10000 + 50) + 10000 - 1) / 10000
  ∧ (ask q - 1) * 10000 < 9623 * (10000 + 50) <= ask q * 10000
  ∧ bid q <= 9623 <= ask q.
Proof. apply (computePassiveQuote_floor_ceil 9623 50); lia. Defined.

End PassiveQuote.

(** ** Conservation check of the happy-path script *)

Section HappyPathConservation.
Import Slab HappyPath Properties.





End HappyPathConservation.

(** ** Margin order in the market-boot test *)

Section MarginOrder.
Import Slab MarketBoot.

(** C6, as the code has it.  T1.3 accepts the risk parameters exactly
    when both margins are positive and the initial margin is at least
    the maintenance margin: the comparison is not strict. *)
Theorem marketConfigVerification_accepts (params : RiskParams) :
  marketConfigVerification params = Ok ()
  ↔ 0 < initialMarginBps params
    ∧ 0 < maintenanceMarginBps params
    ∧ maintenanceMarginBps params <= initialMarginBps params.
Proof.
  unfold marketConfigVerification, assert.
  destruct (Z.gtb_spec (initialMarginBps params) 0);
    destruct (Z.gtb_spec (maintenanceMarginBps params) 0);
    destruct (Z.geb_spec (initialMarginBps params) (maintenanceMarginBps params));
    cbn; split; intros Hacc; try discriminate; try lia; done.
Qed.

(** C6 as stated fails: equal margins pass T1.3. *)
Lemma marketConfigVerification_equal_margins_accepted :
  let params := {| maintenanceMarginBps := 500; initialMarginBps := 500;
                   tradingFeeBps := 10; maxAccounts := 128 |} in
  marketConfigVerification params = Ok ()
  ∧ maintenanceMarginBps params = initialMarginBps params
  ∧ ¬ maintenanceMarginBps params < initialMarginBps params.
Proof. cbn. split; [reflexivity|]. split; [reflexivity | lia]. Qed.

End MarginOrder.

(** ** Magic number *)

Section MagicNumber.
Import Slab Invariants.

Example parseHeader_mock :
  parseHeader mockSlab
  = Ok {| magic := 0x504552434f4c4154; version := 1; bump := 255;
          admin := {| toBytes := 1 :: replicate 31 0 |};
          nonce := 42; lastThrUpdateSlot := 12345 |}.
Proof. vm_compute. reflexivity. Qed.

Example checkMagicNumber_mock :
  checkMagicNumber {| magic := MAGIC; version := 1; bump := 255;
                      admin := {| toBytes := 1 :: replicate 31 0 |};
                      nonce := 42; lastThrUpdateSlot := 12345 |}
  = {| name := "I1: Magic number"; passed := true;
       expected := Some "0x504552434f4c4154";
       actual := Some "0x504552434f4c4154"; message := None |}.
Proof. vm_compute. reflexivity. Qed.

Example parseHeader_short_buffer : threw (parseHeader (replicate 32 0)) = true.
Proof. vm_compute. reflexivity. Qed.

Lemma readUIntLE_in_bounds n data :
  (n ≤ length data)%nat → readUIntLE n data 0 = Ok (LE.value (take n data)).
Proof.
  intros H. unfold readUIntLE. cbn [Nat.add drop].
  destruct (Nat.ltb_spec (length data) n); [lia | done].
Qed.

(** C7. [checkMagicNumber] passes if and only if the header's magic is
    0x504552434f4c4154, and the header parser throws an error whose message
    includes "Invalid slab magic" on every buffer whose first eight bytes,
    read little-endian, are another number. *)
Theorem magic_number_checked (header : SlabHeader) (data : list Z) :
  (passed (checkMagicNumber header) = true ↔ magic header = 0x504552434f4c4154)
  ∧ ((8 ≤ length data)%nat →
     LE.value (take 8 data) ≠ 0x504552434f4c4154 →
     ∃ e : JsError,
       parseHeader data = Throw e ∧ includes "Invalid slab magic" e = true).
Proof.
  split.
  - unfold checkMagicNumber. cbn [passed]. apply Z.eqb_eq.
  - intros Hlen Hmagic. unfold parseHeader.
    rewrite readUIntLE_in_bounds by exact Hlen. cbn [mbind result_bind].
    destruct (Z.eqb_spec (LE.value (take 8 data)) MAGIC) as [E|E]; [done|].
    cbn [negb]. eexists. split; [reflexivity|]. vm_compute. reflexivity.
Qed.

Lemma magic_number_checked_witness :
  ∃ e : JsError,
    parseHeader (replicate 300 0) = Throw e
    ∧ includes "Invalid slab magic" e = true.
Proof.
  apply (proj2 (magic_number_checked
                  {| magic := 0; version := 1; bump := 255;
                     admin := {| toBytes := [] |};
                     nonce := 0; lastThrUpdateSlot := 0 |}
                  (replicate 300 0))).
  - cbn. lia.
  - vm_compute. discriminate.
Defined.

End MagicNumber.

(** ** The invariant checker *)

Section InvariantChecks.
Import Slab Invariants Properties.

Lemma totalUserCapital_sum (m : gmap nat Account) (used : list nat) :
  totalUserCapital m used = sumOver capital (omap (λ i, m !! i) used).
Proof.
  unfold totalUserCapital.
  enough (G : ∀ t0, foldl (λ total i, match m !! i with
                                      | Some acc => total + capital acc
                                      | None => total
                                      end) t0 used
                    = t0 + sumOver capital (omap (λ i, m !! i) used))
    by (rewrite G; lia).
  induction used as [|i used IH]; intros t0; cbn.
  - lia.
  - rewrite IH. destruct (m !! i); unfold sumOver; cbn; lia.
Qed.

Lemma openInterestTotals_sums (m : gmap nat Account) (used : list nat) :
  openInterestTotals m used
  = (sumOver (λ a, Z.max (positionSize a) 0) (omap (λ i, m !! i) used),
     sumOver (λ a, Z.max (- positionSize a) 0) (omap (λ i, m !! i) used)).
Proof.
  unfold openInterestTotals.
  enough (G : ∀ l0 s0,
             foldl (λ '(totalLong, totalShort) i,
                      match m !! i with
                      | None => (totalLong, totalShort)
                      | Some acc =>
                          if positionSize acc >? 0
                          then (totalLong + positionSize acc, totalShort)
                          else if positionSize acc <? 0
                               then (totalLong, totalShort + - positionSize acc)
                               else (totalLong, totalShort)
                      end) (l0, s0) used
             = (l0 + sumOver (λ a, Z.max (positionSize a) 0) (omap (λ i, m !! i) used),
                s0 + sumOver (λ a, Z.max (- positionSize a) 0) (omap (λ i, m !! i) used))).
  { rewrite G. f_equal; lia. }
  induction used as [|i used IH]; intros l0 s0; cbn.
  - f_equal; lia.
  - destruct (m !! i) as [acc|]; [|apply IH].
    destruct (Z.gtb_spec (positionSize acc) 0);
      [|destruct (Z.ltb_spec (positionSize acc) 0)];
      rewrite IH; unfold sumOver; cbn; f_equal; lia.
Qed.

Lemma imbalance_zero (l s : Z) : imbalance (l, s) = 0 ↔ l = s.
Proof. unfold imbalance. destruct (Z.gtb_spec l s); lia. Qed.

(** C1, as the code has it by design.  Where [pnl_pos_tot] is zero, the
    collateral check passes exactly when the vault token account could
    be fetched and its balance is within the fixed tolerance of 200000
    units of [Σ capital_i + insurance.balance + pnl_pos_tot] over the
    used accounts.  (States with a [pnl_pos_tot] other than zero are left
    out: the check does not add it, which the repository's notes record
    as a defect of this version of the test.) *)
Theorem checkCollateralConservation_tolerance
    (getAccount : result Z) (snap : SlabSnapshot) :
  pnlPosTot (engine snap) = 0 →
  passed (checkCollateralConservation getAccount (accounts snap)
            (usedIndices snap) (engine snap)) = true
  ↔ ∃ vaultBalance : Z,
      getAccount = Ok vaultBalance
      ∧ Z.abs (sumOver capital (usedAccounts snap)
               + balance (insuranceFund (engine snap))
               + pnlPosTot (engine snap) - vaultBalance) <= 200000.
Proof.
  intros Hpnl. rewrite Hpnl, Z.add_0_r.
  unfold checkCollateralConservation, usedAccounts.
  rewrite totalUserCapital_sum.
  set (total := sumOver capital _ + _).
  destruct getAccount as [vb|e]; cbn.
  - destruct (Z.gtb_spec total vb);
      match goal with |- context [?d >? 200000] => destruct (Z.gtb_spec d 200000) end;
      cbn; split; try discriminate; try (intros _; exists vb; split; [done|lia]);
      intros (vb' & [= <-] & Hd); lia.
  - split; [discriminate | intros (vb & [=] & _)].
Qed.

Lemma checkCollateralConservation_tolerance_witness :
  let snap := {| header := {| magic := MAGIC; version := 1; bump := 255;
                              admin := {| toBytes := replicate 32 0 |};
                              nonce := 0; lastThrUpdateSlot := 0 |};
                 engine := {| vault := 1000000;
                              insuranceFund := {| balance := 0; feeRevenue := 0 |};
                              pnlPosTot := 0; totalOpenInterest := 0;
                              nextAccountId := 1; numUsedAccounts := 1 |};
                 params := {| maintenanceMarginBps := 500; initialMarginBps := 1000;
                              tradingFeeBps := 10; maxAccounts := 64 |};
                 accounts := [ {| idx := 0;
                                  account := {| accountId := 0; capital := 1000000;
                                                pnl := 0; positionSize := 0 |} |} ];
                 usedIndices := [0%nat] |} in
  passed (checkCollateralConservation (Ok 1100000) (accounts snap)
            (usedIndices snap) (engine snap)) = true
  ↔ ∃ vaultBalance : Z,
      Ok 1100000 = Ok vaultBalance
      ∧ Z.abs (sumOver capital (usedAccounts snap)
               + balance (insuranceFund (engine snap))
               + pnlPosTot (engine snap) - vaultBalance) <= 200000.
Proof.
  intros snap.
  apply (checkCollateralConservation_tolerance (Ok 1100000) snap). reflexivity.
Defined.

(** C1 as stated fails: with [pnl_pos_tot = 0] and one settlement, a
    vault 100000 units above the slab total passes the check although no
    dust of one lamport explains it. *)
Lemma checkCollateralConservation_not_P1 :
  let snap := {| header := {| magic := MAGIC; version := 1; bump := 255;
                              admin := {| toBytes := replicate 32 0 |};
                              nonce := 0; lastThrUpdateSlot := 0 |};
                 engine := {| vault := 1000000;
                              insuranceFund := {| balance := 0; feeRevenue := 0 |};
                              pnlPosTot := 0; totalOpenInterest := 0;
                              nextAccountId := 1; numUsedAccounts := 1 |};
                 params := {| maintenanceMarginBps := 500; initialMarginBps := 1000;
                              tradingFeeBps := 10; maxAccounts := 64 |};
                 accounts := [ {| idx := 0;
                                  account := {| accountId := 0; capital := 1000000;
                                                pnl := 0; positionSize := 0 |} |} ];
                 usedIndices := [0%nat] |} in
  passed (checkCollateralConservation (Ok 1100000) (accounts snap)
            (usedIndices snap) (engine snap)) = true
  ∧ ¬ P1_conservation 1100000 snap 1.
Proof.
  intros snap. split; [vm_compute; reflexivity|].
  intros (dust & Hd & Heq).
  replace (usedAccounts snap)
    with [ {| accountId := 0; capital := 1000000; pnl := 0; positionSize := 0 |} ]
    in Heq by reflexivity.
  cbn in Heq. lia.
Qed.

(** C3, as the code has it.  The open-interest check is informational:
    it passes on every state.  Its message gives the total long size
    [Σ max(p_i,0)], the total short size [Σ max(−p_i,0)] and their
    absolute difference as the imbalance; that imbalance is zero exactly
    when P4 holds. *)
Theorem checkOpenInterestBalance_info_only (snap : SlabSnapshot) :
  let long := sumOver (λ a, Z.max (positionSize a) 0) (usedAccounts snap) in
  let short := sumOver (λ a, Z.max (- positionSize a) 0) (usedAccounts snap) in
  passed (checkOpenInterestBalance (accounts snap) (usedIndices snap)) = true
  ∧ message (checkOpenInterestBalance (accounts snap) (usedIndices snap))
    = Some ("Long: " +:+ pretty long +:+ ", Short: " +:+ pretty short
              +:+ ", Imbalance: " +:+ pretty (Z.abs (long - short)))
  ∧ (Z.abs (long - short) = 0 ↔ P4_oi_balance snap)
  ∧ (imbalance (openInterestTotals (accountMap (accounts snap)) (usedIndices snap)) = 0
     ↔ P4_oi_balance snap).
Proof.
  intros long short. split; [reflexivity|]. split; [|split].
  - unfold checkOpenInterestBalance. cbn [message].
    rewrite openInterestTotals_sums. cbn [fst snd]. fold (usedAccounts snap).
    fold long short. do 7 f_equal. unfold imbalance.
    destruct (Z.gtb_spec long short); lia.
  - unfold P4_oi_balance. fold long short. lia.
  - rewrite openInterestTotals_sums, imbalance_zero. reflexivity.
Qed.

(** C3 as stated fails: one long position of 5 with no short against it
    passes the check. *)
Lemma checkOpenInterestBalance_passes_unbalanced :
  let snap := {| header := {| magic := MAGIC; version := 1; bump := 255;
                              admin := {| toBytes := replicate 32 0 |};
                              nonce := 0; lastThrUpdateSlot := 0 |};
                 engine := {| vault := 1000000;
                              insuranceFund := {| balance := 0; feeRevenue := 0 |};
                              pnlPosTot := 0; totalOpenInterest := 5;
                              nextAccountId := 1; numUsedAccounts := 1 |};
                 params := {| maintenanceMarginBps := 500; initialMarginBps := 1000;
                              tradingFeeBps := 10; maxAccounts := 64 |};
                 accounts := [ {| idx := 0;
                                  account := {| accountId := 0; capital := 1000000;
                                                pnl := 0; positionSize := 5 |} |} ];
                 usedIndices := [0%nat] |} in
  passed (checkOpenInterestBalance (accounts snap) (usedIndices snap)) = true
  ∧ ¬ P4_oi_balance snap.
Proof.
  intros snap. split; [reflexivity|].
  unfold P4_oi_balance.
  replace (usedAccounts snap)
    with [ {| accountId := 0; capital := 1000000; pnl := 0; positionSize := 5 |} ]
    by reflexivity.
  cbn. lia.
Qed.

End InvariantChecks.

(** ** Account ids under the full check *)

Section AccountIds.
Import Slab Invariants Properties.

Lemma findDuplicateId_none (m : gmap nat Account) (used : list nat) :
  ∀ seenIds : gset string,
    findDuplicateId m seenIds used = None →
    NoDup (map accountId (omap (λ i, m !! i) used))
    ∧ Forall (λ a, pretty (accountId a) ∉ seenIds) (omap (λ i, m !! i) used).
Proof.
  induction used as [|i used IH]; intros seenIds Hnone; cbn in *.
  - split; constructor.
  - destruct (m !! i) as [acc|]; [|by apply IH].
    destruct (decide (pretty (accountId acc) ∈ seenIds)) as [Hin|Hout]; [done|].
    apply IH in Hnone as [Hnd Hfresh]. split.
    + cbn. constructor; [|exact Hnd].
      intros Hdup. apply list_elem_of_fmap in Hdup as (a & Heq & Ha).
      rewrite Forall_forall in Hfresh. apply (Hfresh a Ha).
      rewrite <- Heq. apply elem_of_union_l, elem_of_singleton. reflexivity.
    + constructor; [exact Hout|].
      eapply Forall_impl; [exact Hfresh|]. cbn. intros a Ha Hin.
      apply Ha, elem_of_union_r, Hin.
Qed.

(** The half of P3 that the full check does enforce: a state it accepts
    has pairwise distinct account ids over the used slots. *)
Lemma checkAll_distinct_ids (getAccount : result Z) (snap : SlabSnapshot) :
  reportPassed (checkAll getAccount snap) = true → P3_distinct_ids snap.
Proof.
  unfold checkAll. cbn [reportPassed forallb]. intros H.
  apply andb_true_iff in H as [_ H]. apply andb_true_iff in H as [_ H].
  apply andb_true_iff in H as [H _].
  unfold checkAccountIdUniqueness in H.
  destruct (findDuplicateId _ _ _) eqn:E; [discriminate|].
  apply findDuplicateId_none in E as [Hnd _]. exact Hnd.
Qed.

(** C4 at the failing input: one used account with id 5 while
    [nextAccountId] is 0.  Every check of [checkAll] passes, although
    [next_account_id > account_id] is violated. *)
Theorem checkAll_accepts_stale_next_id :
  let snap := {| header := {| magic := MAGIC; version := 1; bump := 255;
                              admin := {| toBytes := replicate 32 0 |};
                              nonce := 0; lastThrUpdateSlot := 0 |};
                 engine := {| vault := 1000000;
                              insuranceFund := {| balance := 0; feeRevenue := 0 |};
                              pnlPosTot := 0; totalOpenInterest := 0;
                              nextAccountId := 0; numUsedAccounts := 1 |};
                 params := {| maintenanceMarginBps := 500; initialMarginBps := 1000;
                              tradingFeeBps := 10; maxAccounts := 64 |};
                 accounts := [ {| idx := 0;
                                  account := {| accountId := 5; capital := 1000000;
                                                pnl := 0; positionSize := 0 |} |} ];
                 usedIndices := [0%nat] |} in
  reportPassed (checkAll (Ok 1000000) snap) = true
  ∧ map passed (results (checkAll (Ok 1000000) snap))
    = [true; true; true; true; true; true; true]
  ∧ P3_distinct_ids snap
  ∧ ¬ P3_next_id_above snap.
Proof.
  intros snap.
  assert (Hpass : reportPassed (checkAll (Ok 1000000) snap) = true)
    by (vm_compute; reflexivity).
  split; [exact Hpass|]. split; [vm_compute; reflexivity|].
  split; [exact (checkAll_distinct_ids _ _ Hpass)|].
  unfold P3_next_id_above.
  replace (usedAccounts snap)
    with [ {| accountId := 5; capital := 1000000; pnl := 0; positionSize := 0 |} ]
    by reflexivity.
  intros Hall. apply Forall_cons in Hall as [Hlt _]. cbn in Hlt. lia.
Qed.

End AccountIds.

(* ===================================================================== *)
(** * Further properties of the code *)
(* ===================================================================== *)

(** ** Range behaviour of the deploy script's encoders *)

Section EncoderRanges.
Import DeployTightLp.

Lemma inRange_spec lo hi v : inRange lo hi v = true ↔ lo <= v < hi.
Proof. unfold inRange. rewrite andb_true_iff, Z.leb_le, Z.ltb_lt. done. Qed.

Lemma writeUIntLE_alloc_total n v :
  Buffer.writeUIntLE n (Buffer.alloc n) v 0
  = if inRange 0 (2 ^ (8 * Z.of_nat n)) v then Ok (LE.bytes n v)
    else Throw (RangeError "ERR_OUT_OF_RANGE").
Proof.
  destruct (inRange 0 (2 ^ (8 * Z.of_nat n)) v) eqn:E.
  - apply writeUIntLE_alloc, inRange_spec, E.
  - apply writeUIntLE_range. rewrite <- inRange_spec, E. discriminate.
Qed.

Lemma le_value_bytes_small n v :
  0 <= v < 2 ^ (8 * Z.of_nat n) → LE.value (LE.bytes n v) = v.
Proof.
  intros Hv. rewrite le_value_bytes.
  replace (256 ^ Z.of_nat n) with (2 ^ (8 * Z.of_nat n))
    by (rewrite Z.pow_mul_r by lia; done).
  apply Z.mod_small, Hv.
Qed.

(** X1. Each single-store encoder ([encU8], [encU16LE], [encU32LE],
    [encU64LE]) returns the little-endian bytes of a value of its range
    and throws a RangeError on every other integer; a returned buffer has
    the width of the type and reads back as the value. *)
Theorem unsigned_encoders_range (n : nat) (enc : Z → result Buffer.t) (v : Z) :
  (n, enc) ∈ unsignedEncoders →
  enc v = (if inRange 0 (2 ^ (8 * Z.of_nat n)) v then Ok (LE.bytes n v)
           else Throw (RangeError "ERR_OUT_OF_RANGE"))
  ∧ ∀ bs : list Z, enc v = Ok bs → length bs = n ∧ LE.value bs = v.
Proof.
  intros Hin.
  assert (Henc : enc v = Buffer.writeUIntLE n (Buffer.alloc n) v 0).
  { unfold unsignedEncoders in Hin. rewrite !elem_of_cons, elem_of_nil in Hin.
    destruct Hin as [[= -> ->]|[[= -> ->]|[[= -> ->]|[[= -> ->]|[]]]]]; reflexivity. }
  rewrite Henc, writeUIntLE_alloc_total. split; [reflexivity|].
  intros bs H. destruct (inRange 0 (2 ^ (8 * Z.of_nat n)) v) eqn:E; [|discriminate].
  assert (bs = LE.bytes n v) as -> by congruence. split; [apply le_bytes_length|].
  apply le_value_bytes_small, inRange_spec, E.
Qed.

Lemma unsigned_encoders_range_witness :
  encU16LE 0xabcd
  = (if inRange 0 (2 ^ (8 * Z.of_nat 2)) 0xabcd then Ok (LE.bytes 2 0xabcd)
     else Throw (RangeError "ERR_OUT_OF_RANGE"))
  ∧ ∀ bs : list Z, encU16LE 0xabcd = Ok bs → length bs = 2%nat ∧ LE.value bs = 0xabcd.
Proof.
  apply (unsigned_encoders_range 2 encU16LE 0xabcd).
  unfold unsignedEncoders. apply list_elem_of_further, list_elem_of_here.
Defined.

Lemma encU128LE_total (v : Z) :
  encU128LE v = if inRange 0 (2 ^ 128) v then Ok (LE.bytes 16 v)
                else Throw (RangeError "ERR_OUT_OF_RANGE").
Proof.
  destruct (inRange 0 (2 ^ 128) v) eqn:E.
  - apply encU128LE_ok, inRange_spec, E.
  - assert (Hv : ¬ (0 <= v < 2 ^ 128)) by (rewrite <- inRange_spec, E; discriminate).
    unfold encU128LE, Buffer.writeBigUInt64LE.
    pose proof (writeUIntLE_window 8 [] (Buffer.alloc 8) (Buffer.alloc 8)
                  (Z.land v MASK64)) as H1.
    cbn [app length] in H1.
    change (Buffer.alloc 8 ++ Buffer.alloc 8) with (Buffer.alloc 16) in H1.
    rewrite H1; [|done|rewrite land_mask64; apply Z.mod_pos_bound; lia].
    cbn [mbind result_bind]. apply writeUIntLE_range.
    rewrite Z.shiftr_div_pow2 by lia. intros [Hlo Hhi]. apply Hv. split.
    + destruct (Z.lt_ge_cases v 0) as [Hneg|]; [|done].
      assert (v / 2 ^ 64 < 0) by (apply Z.div_lt_upper_bound; lia). lia.
    + assert (v / 2 ^ 64 <= 2 ^ 64 - 1) as Hle by lia.
      pose proof (Z.mul_succ_div_gt v (2 ^ 64)). nia.
Qed.

(** X2. [encU128LE] returns the sixteen little-endian bytes of [v] when
    [0 <= v < 2^128] and throws a RangeError on every other BigInt
    (negative or too large): it never wraps.  What it returns reads back
    as [v]. *)
Theorem encU128LE_range (v : Z) :
  encU128LE v = (if inRange 0 (2 ^ 128) v then Ok (LE.bytes 16 v)
                 else Throw (RangeError "ERR_OUT_OF_RANGE"))
  ∧ ∀ bs : list Z,
      encU128LE v = Ok bs → length bs = 16%nat ∧ LE.value bs = v.
Proof.
  split; [apply encU128LE_total|].
  intros bs H. rewrite encU128LE_total in H.
  destruct (inRange 0 (2 ^ 128) v) eqn:E; [|discriminate].
  assert (bs = LE.bytes 16 v) as -> by congruence. split; [apply le_bytes_length|].
  apply le_value_bytes_small, inRange_spec, E.
Qed.

(** X3. [encI128LE] never throws and does not check the i128 range: it
    encodes [v] modulo [2^128], so [v] and [v + k * 2^128] give the same
    sixteen bytes, and the bytes read back, as a two's-complement i128,
    as the representative of [v] in [-2^127, 2^127). *)
Theorem encI128LE_wraps (v k : Z) :
  encI128LE (v + k * 2 ^ 128) = encI128LE v
  ∧ ∃ bs : list Z,
      encI128LE v = Ok bs
      ∧ length bs = 16%nat
      ∧ LE.decI128 bs = (v + 2 ^ 127) mod 2 ^ 128 - 2 ^ 127.
Proof.
  split.
  - rewrite !encI128LE_total. by rewrite Z.mod_add by lia.
  - exists (LE.bytes 16 (v mod 2 ^ 128)). split; [apply encI128LE_total|].
    split; [apply le_bytes_length|].
    unfold LE.decI128. rewrite le_value_bytes.
    change (256 ^ Z.of_nat 16) with (2 ^ 128). rewrite Z.mod_mod by lia.
    pose proof (Z.mod_pos_bound v (2 ^ 128) ltac:(lia)) as Hb.
    pose proof (Z.div_mod v (2 ^ 128) ltac:(lia)) as Hdm.
    set (r := v mod 2 ^ 128) in *. set (q := v / 2 ^ 128) in *.
    replace (v + 2 ^ 127) with (r + 2 ^ 127 + q * 2 ^ 128) by lia.
    rewrite Z.mod_add by lia.
    destruct (Z.ltb_spec r (2 ^ 127)).
    + rewrite Z.mod_small; lia.
    + rewrite <- (Z.mod_unique (r + 2 ^ 127) (2 ^ 128) 1 (r + 2 ^ 127 - 2 ^ 128));
        lia.
Qed.

End EncoderRanges.

(** ** Sizes and decodability of the instruction encodings *)

Section EncoderDecodability.
Import Encode Instructions Taxonomy DocumentedSizes.
Context {P : Primitives} {PLE : LittleEndian P}.

Lemma packedSize_documented ix : packedSize (row ix) = documentedSize ix.
Proof. destruct ix; reflexivity. Qed.

(** X4. For arguments that fit the field types, every instruction encoder
    returns exactly the number of bytes its comment in
    src/abi/instructions.ts documents (256, 9, 73, 11, 11, 4, 21, 3, 3, 9,
    21, 17, 33, 1). *)
Theorem encode_documented_size (ix : Instruction) :
  argsOk ix →
  ∃ bs : list Z, encode ix = Ok bs ∧ length bs = documentedSize ix.
Proof.
  intros Hok. exists (packed (row ix)). split; [by apply encode_follows_row|].
  rewrite <- packedSize_documented. destruct Hok as [Hf _].
  destruct (row ix) as [tag fs]. by apply packed_length.
Qed.

Lemma le_bytes_inj n a b :
  0 <= a < 2 ^ (8 * Z.of_nat n) → 0 <= b < 2 ^ (8 * Z.of_nat n) →
  LE.bytes n a = LE.bytes n b → a = b.
Proof.
  intros Ha Hb H. apply (f_equal LE.value) in H.
  by rewrite !le_value_bytes_small in H.
Qed.

Lemma fieldBytes_inj f g :
  fieldOk f → fieldOk g → sameShape f g → fieldBytes f = fieldBytes g → f = g.
Proof.
  destruct f, g; cbn [sameShape]; try done; intros Hf Hg Hs H.
  - cbn in H. by subst.
  - f_equal. by apply (le_bytes_inj 1).
  - f_equal. by apply (le_bytes_inj 2).
  - f_equal. by apply (le_bytes_inj 4).
  - f_equal. by apply (le_bytes_inj 8).
  - f_equal. by apply (le_bytes_inj 16).
  - f_equal. cbn [fieldBytes] in H. cbn [fieldOk] in Hf, Hg.
    apply (le_bytes_inj 16) in H; [|apply Z.mod_pos_bound; lia ..].
    rewrite !twos_complement_128 in H by done.
    destruct (Z.ltb_spec v 0), (Z.ltb_spec v0 0); lia.
Qed.

Lemma fields_injective fs gs :
  Forall2 sameShape fs gs → Forall fieldOk fs → Forall fieldOk gs →
  concat (map fieldBytes fs) = concat (map fieldBytes gs) → fs = gs.
Proof.
  induction 1 as [|f g fs gs Hs _ IH]; [done|].
  intros Hf Hg H. apply Forall_cons in Hf as [Hf Hfs].
  apply Forall_cons in Hg as [Hg Hgs]. cbn [map concat] in H.
  apply app_inj_1 in H as [Hhd Htl].
  - f_equal; [by apply fieldBytes_inj | by apply IH].
  - rewrite !fieldBytes_length by done. destruct f, g; cbn in Hs |- *; done.
Qed.

Lemma row_injective ix1 ix2 :
  row ix1 = row ix2 →
  match ix1 with InitMarket _ => True | _ => ix1 = ix2 end.
Proof.
  assert (Hkey : ∀ a b : PublicKey, toBytes a = toBytes b → a = b)
    by (intros [a] [b]; cbn; congruence).
  destruct ix1; try exact (λ _, I); destruct ix2; cbn [row];
    intros H; try discriminate H; try (injection H; intros; subst);
    try reflexivity; f_equal; auto;
    match goal with
    | H : boolByte ?p = boolByte ?q |- _ => destruct p, q; done
    end.
Qed.

(** X5. The encoding decides the instruction: two instructions whose
    arguments fit their field types and whose encoders return the same
    bytes have the same tag and the same field values, and apart from
    InitMarket (whose feed id is a string with several spellings) they
    are the same instruction with the same arguments. *)
Theorem encode_injective (ix1 ix2 : Instruction) :
  argsOk ix1 → argsOk ix2 → encode ix1 = encode ix2 →
  row ix1 = row ix2
  ∧ match ix1 with InitMarket _ => True | _ => ix1 = ix2 end.
Proof.
  intros H1 H2 He.
  rewrite (encode_follows_row ix1 H1), (encode_follows_row ix2 H2) in He.
  assert (Hp : packed (row ix1) = packed (row ix2)) by congruence. clear He.
  assert (Hrow : row ix1 = row ix2).
  { destruct H1 as [F1 _], H2 as [F2 _]. unfold packed in Hp.
    injection Hp as Htag Hbytes.
    destruct (row ix1) as [t1 fs] eqn:E1, (row ix2) as [t2 gs] eqn:E2.
    cbn [fst snd] in *. subst t2. f_equal.
    apply fields_injective; try done.
    destruct ix1, ix2; cbn [row] in E1, E2;
      apply pair_equal_spec in E1 as [<- <-];
      apply pair_equal_spec in E2 as [E2 <-];
      try discriminate E2; unfold riskParams; cbn [app];
      repeat constructor. }
  split; [exact Hrow | by apply row_injective].
Qed.

End EncoderDecodability.

Section EncoderDecodabilityWitnesses.
Import Encode Instructions Taxonomy DocumentedSizes.

Lemma argsOk_KeeperCrank_permissionless : argsOk (KeeperCrank 65535 false).
Proof. apply argsOk_KeeperCrank. lia. Qed.

Lemma encode_documented_size_witness :
  ∃ bs : list Z,
    encode (P := deployPrimitives) (KeeperCrank 65535 false) = Ok bs
    ∧ length bs = documentedSize (KeeperCrank 65535 false).
Proof.
  apply (encode_documented_size (P := deployPrimitives) (KeeperCrank 65535 false)).
  apply argsOk_KeeperCrank. lia.
Defined.

Lemma encode_injective_witness :
  row (KeeperCrank 65535 false) = row (KeeperCrank 65535 false)
  ∧ KeeperCrank 65535 false = KeeperCrank 65535 false.
Proof.
  apply (encode_injective (P := deployPrimitives)
           (KeeperCrank 65535 false) (KeeperCrank 65535 false)).
  - apply argsOk_KeeperCrank. lia.
  - apply argsOk_KeeperCrank. lia.
  - reflexivity.
Defined.

End EncoderDecodabilityWitnesses.

(** ** The feed id of InitMarket *)

Section FeedId.
Import Instructions.

Lemma hexDigit_range c h : Buffer.hexDigit c = Some h → 0 <= h < 16.
Proof.
  unfold Buffer.hexDigit. set (n := Z.of_N (N_of_ascii c)).
  repeat match goal with
         | |- context [if ?b then _ else _] => destruct b eqn:?
         end; intros [= <-]; lia.
Qed.

Lemma fromHexChars_all_hex (n : nat) :
  ∀ cs : list ascii,
    length cs = (2 * n)%nat → Forall isHexDigit cs →
    length (Buffer.fromHexChars cs) = n
    ∧ Forall LE.is_byte (Buffer.fromHexChars cs).
Proof.
  induction n as [|n IH]; intros cs Hlen Hhex.
  - destruct cs; [|discriminate]. split; [done | constructor].
  - destruct cs as [|c1 [|c2 rest]]; try (cbn in Hlen; lia).
    apply Forall_cons in Hhex as [[h Hh] Hhex].
    apply Forall_cons in Hhex as [[l Hl] Hhex].
    cbn [Buffer.fromHexChars]. rewrite Hh, Hl.
    destruct (IH rest) as [IHlen IHbytes]; [cbn in Hlen; lia | done |].
    split; [cbn; by rewrite IHlen|].
    constructor; [|done]. unfold LE.is_byte.
    apply hexDigit_range in Hh, Hl. lia.
Qed.

Lemma list_ascii_length s : length (list_ascii_of_string s) = String.length s.
Proof. induction s as [|c s IH]; [done|]. cbn. by rewrite IH. Qed.

(** X6. [encodeFeedId] throws exactly when the id, without an optional
    [0x] prefix, is not 64 characters long; when those 64 characters are
    hexadecimal digits it returns 32 bytes.  Nothing else is checked. *)
Theorem encodeFeedId_hex (s : string) :
  Forall isHexDigit (list_ascii_of_string (stripHexPrefix s)) →
  (threw (encodeFeedId s) = true ↔ String.length (stripHexPrefix s) ≠ 64%nat)
  ∧ ∀ bs : list Z,
      encodeFeedId s = Ok bs → length bs = 32%nat ∧ Forall LE.is_byte bs.
Proof.
  intros Hhex. unfold encodeFeedId.
  destruct (Nat.eqb_spec (String.length (stripHexPrefix s)) 64) as [E|E]; cbn.
  - split; [split; [discriminate | done]|].
    intros bs [= <-]. apply fromHexChars_all_hex; [|done].
    by rewrite list_ascii_length, E.
  - split; [done | discriminate].
Qed.

Lemma encodeFeedId_hex_witness :
  (threw (encodeFeedId
            "0xe62df6c8b4a85fe1a67db44dc12de5db330f7ac66b72dc658afedf0f4a415b43") = true
   ↔ String.length
       (stripHexPrefix
          "0xe62df6c8b4a85fe1a67db44dc12de5db330f7ac66b72dc658afedf0f4a415b43")
     ≠ 64%nat)
  ∧ ∀ bs : list Z,
      encodeFeedId
        "0xe62df6c8b4a85fe1a67db44dc12de5db330f7ac66b72dc658afedf0f4a415b43" = Ok bs →
      length bs = 32%nat ∧ Forall LE.is_byte bs.
Proof.
  apply (encodeFeedId_hex
           "0xe62df6c8b4a85fe1a67db44dc12de5db330f7ac66b72dc658afedf0f4a415b43").
  cbn [stripHexPrefix list_ascii_of_string].
  repeat (apply Forall_cons; split; [vm_compute; eauto|]). apply Forall_nil_2.
Defined.

End FeedId.

(** ** The deploy script's builders *)

Section DeployBuilders.
Import DeployTightLp DeployVamm.

Lemma encU8_total v :
  encU8 v = if inRange 0 (2 ^ 8) v then Ok [v] else Throw (RangeError "ERR_OUT_OF_RANGE").
Proof.
  unfold encU8, Buffer.writeUInt8. rewrite writeUIntLE_alloc_total.
  change (2 ^ (8 * Z.of_nat 1)) with (2 ^ 8).
  destruct (inRange 0 (2 ^ 8) v) eqn:E; [|done].
  apply inRange_spec in E. cbn. by rewrite Z.mod_small by lia.
Qed.

Lemma encU32LE_total v :
  encU32LE v = if inRange 0 (2 ^ 32) v then Ok (LE.bytes 4 v)
               else Throw (RangeError "ERR_OUT_OF_RANGE").
Proof. apply writeUIntLE_alloc_total. Qed.

(** X7. [buildInitVammData] returns, for parameters within the widths of
    its fields, the 66 bytes its comment lays out (tag 2, mode, four u32
    and three u128, little-endian), and throws a RangeError as soon as
    one parameter is outside its width. *)
Theorem buildInitVammData_layout (p : InitVammParams) :
  buildInitVammData p
  = (if initVammParamsOk p then Ok (initVammLayout p)
     else Throw (RangeError "ERR_OUT_OF_RANGE"))
  ∧ length (initVammLayout p) = 66%nat.
Proof.
  split.
  - unfold buildInitVammData, initVammParamsOk, initVammLayout.
    rewrite !encU8_total, !encU32LE_total, !encU128LE_total.
    change (inRange 0 (2 ^ 8) 2) with true. cbn match.
    repeat match goal with
           | |- context [inRange 0 ?hi ?x] => destruct (inRange 0 hi x)
           end; reflexivity.
  - unfold initVammLayout. rewrite !length_app, !le_bytes_length. reflexivity.
Qed.

End DeployBuilders.

Section DeployAgainstAbi.
Import Encode Instructions.
Context {P : Primitives} {PLE : LittleEndian P}.

(** X8. The deploy script's hand-written [buildInitLpData] and
    [buildDepositData] return byte for byte what [encodeInitLP] and
    [encodeDepositCollateral] of the ABI return, for a fee and an amount
    in u64 and an index in u16. *)
Theorem deploy_builders_agree_with_abi
    (matcherProg matcherCtx : PublicKey) (fee userIdx amount : Z) :
  0 <= fee < 2 ^ 64 → 0 <= userIdx < 2 ^ 16 → 0 <= amount < 2 ^ 64 →
  DeployTightLp.buildInitLpData matcherProg matcherCtx fee
  = encodeInitLP matcherProg matcherCtx fee
  ∧ DeployTightLp.buildDepositData userIdx amount
    = encodeDepositCollateral userIdx amount.
Proof.
  intros Hfee Hidx Hamt.
  unfold DeployTightLp.buildInitLpData, DeployTightLp.buildDepositData,
    encodeInitLP, encodeDepositCollateral, IX_TAG.InitLP, IX_TAG.DepositCollateral.
  rewrite !encU8_ok, !encU64LE_ok, encU16LE_ok by lia.
  rewrite !encode_tag, !encPubkey_bytes by lia.
  rewrite !encU64_le, encU16_le by lia. done.
Qed.

End DeployAgainstAbi.

Lemma deploy_builders_agree_with_abi_witness :
  DeployTightLp.buildInitLpData {| toBytes := replicate 32 1 |}
    {| toBytes := replicate 32 2 |} 1000000
  = Instructions.encodeInitLP (P := Encode.deployPrimitives)
      {| toBytes := replicate 32 1 |} {| toBytes := replicate 32 2 |} 1000000
  ∧ DeployTightLp.buildDepositData 1 500000000
    = Instructions.encodeDepositCollateral (P := Encode.deployPrimitives) 1 500000000.
Proof.
  apply (deploy_builders_agree_with_abi (P := Encode.deployPrimitives)); lia.
Defined.

(** ** Writes at an offset of an existing buffer *)

Section WritesAtOffset.

Lemma split_at (buf : list Z) (off n : nat) :
  (off + n ≤ length buf)%nat →
  buf = take off buf ++ take n (drop off buf) ++ drop (off + n) buf
  ∧ length (take off buf) = off
  ∧ length (take n (drop off buf)) = n.
Proof.
  intros H. split; [|split].
  - rewrite <- drop_drop, take_drop, take_drop. done.
  - rewrite length_take. lia.
  - rewrite length_take, length_drop. lia.
Qed.

Lemma writeUIntLE_at n buf v off :
  (off + n ≤ length buf)%nat → 0 <= v < 2 ^ (8 * Z.of_nat n) →
  Buffer.writeUIntLE n buf v off
  = Ok (take off buf ++ LE.bytes n v ++ drop (off + n) buf).
Proof.
  intros Hlen Hv. destruct (split_at buf off n Hlen) as (Hbuf & Hpre & Hold).
  pose proof (writeUIntLE_window n (take off buf) (take n (drop off buf))
                (drop (off + n) buf) v Hold Hv) as W.
  rewrite Hpre in W. by rewrite <- Hbuf in W.
Qed.

Lemma writeUIntLE_bounds n buf v off :
  0 <= v < 2 ^ (8 * Z.of_nat n) → (length buf < off + n)%nat →
  Buffer.writeUIntLE n buf v off
  = Throw (RangeError (if (length buf <? n)%nat then "ERR_BUFFER_OUT_OF_BOUNDS"
                       else "ERR_OUT_OF_RANGE")).
Proof.
  intros Hv Hlen. unfold Buffer.writeUIntLE, Buffer.checkInt, Buffer.boundsError.
  replace ((v >? 2 ^ (8 * Z.of_nat n) - 1) || (v <? 0)) with false
    by (symmetry; apply orb_false_iff; split; lia).
  replace (length buf <? off + n)%nat with true
    by (symmetry; apply Nat.ltb_lt; lia).
  by destruct (length buf <? n)%nat.
Qed.

Lemma writeBigInt64LE_at buf v off :
  (off + 8 ≤ length buf)%nat → - 2 ^ 63 <= v < 2 ^ 63 →
  BufferOps.writeBigInt64LE buf v off
  = Ok (take off buf ++ LE.bytes 8 (v mod 2 ^ 64) ++ drop (off + 8) buf).
Proof.
  intros Hlen Hv. unfold BufferOps.writeBigInt64LE, Buffer.checkInt.
  replace ((v >? 2 ^ 63 - 1) || (v <? - 2 ^ 63)) with false
    by (symmetry; apply orb_false_iff; split; lia).
  replace (length buf <? off + 8)%nat with false
    by (symmetry; apply Nat.ltb_ge; lia).
  cbn [mbind mret result_bind result_ret].
  destruct (split_at buf off 8 Hlen) as (Hbuf & Hpre & Hold).
  pose proof (storeLE_window 8 (take off buf) (take 8 (drop off buf))
                (drop (off + 8) buf) v Hold) as W.
  rewrite Hpre in W. rewrite <- Hbuf in W. rewrite W.
  change (2 ^ 64) with (256 ^ Z.of_nat 8). by rewrite le_bytes_mod.
Qed.

Lemma writeBigInt64LE_range buf v off :
  ¬ (- 2 ^ 63 <= v < 2 ^ 63) →
  BufferOps.writeBigInt64LE buf v off = Throw (RangeError "ERR_OUT_OF_RANGE").
Proof.
  intros Hv. unfold BufferOps.writeBigInt64LE, Buffer.checkInt.
  replace ((v >? 2 ^ 63 - 1) || (v <? - 2 ^ 63)) with true; [done|].
  symmetry. apply orb_true_iff. lia.
Qed.

End WritesAtOffset.

(** ** The stress test's hand-written encoders *)

Section StressEncoders.
Import StressTest.

(** The permissionless crank, written three times in the repository,
    is the same four bytes each time. *)
Example encodeCrank_agrees :
  encodeCrank = Ok [5; 255; 255; 0]
  ∧ encodeCrank = DeployTightLp.buildKeeperCrankData 65535
  ∧ encodeCrank
    = Instructions.encodeKeeperCrank (P := Encode.deployPrimitives) 65535 false.
Proof. repeat split; vm_compute; reflexivity. Qed.

(** X9. [encodePushOraclePrice] returns 17 bytes: tag 17, the price as
    u64 little-endian and the timestamp as i64 little-endian in two's
    complement; it throws a RangeError when the price is outside u64 or
    the timestamp outside i64. *)
Theorem encodePushOraclePrice_layout (priceE6 timestamp : Z) :
  encodePushOraclePrice priceE6 timestamp
  = (if inRange 0 (2 ^ 64) priceE6 && inRange (- 2 ^ 63) (2 ^ 63) timestamp
     then Ok (17 :: LE.bytes 8 priceE6 ++ LE.bytes 8 (timestamp mod 2 ^ 64))
     else Throw (RangeError "ERR_OUT_OF_RANGE"))
  ∧ length (17 :: LE.bytes 8 priceE6 ++ LE.bytes 8 (timestamp mod 2 ^ 64)) = 17%nat.
Proof.
  split; [|cbn [length]; by rewrite length_app, !le_bytes_length].
  unfold encodePushOraclePrice, Buffer.writeUInt8, Buffer.writeBigUInt64LE.
  rewrite (writeUIntLE_at 1 (Buffer.alloc 17) 17 0) by (cbn; lia).
  cbn [mbind result_bind].
  change (take 0 (Buffer.alloc 17) ++ LE.bytes 1 17 ++ drop (0 + 1) (Buffer.alloc 17))
    with (17 :: Buffer.alloc 16).
  destruct (inRange 0 (2 ^ 64) priceE6) eqn:Ep; cbn [andb].
  - apply inRange_spec in Ep.
    rewrite (writeUIntLE_at 8 (17 :: Buffer.alloc 16) priceE6 1) by (cbn; lia).
    cbn [mbind result_bind].
    change (take 1 (17 :: Buffer.alloc 16)) with [17].
    change (drop (1 + 8) (17 :: Buffer.alloc 16)) with (Buffer.alloc 8).
    destruct (inRange (- 2 ^ 63) (2 ^ 63) timestamp) eqn:Et.
    + apply inRange_spec in Et.
      rewrite writeBigInt64LE_at.
      2:{ cbn [length app]. rewrite length_app, le_bytes_length. cbn. lia. }
      2:{ exact Et. }
      reflexivity.
    + rewrite writeBigInt64LE_range; [done|].
      rewrite <- inRange_spec, Et. discriminate.
  - rewrite writeUIntLE_range; [done|].
    change (2 ^ (8 * Z.of_nat 8)) with (2 ^ 64). rewrite <- inRange_spec, Ep. discriminate.
Qed.

(** X10. [encodeSetOracleAuthority] always returns 33 bytes, tag 16 and
    then the key; [copy] takes as many bytes as fit, so a shorter key is
    padded with zeros and a longer one cut after 32 bytes. *)
Theorem encodeSetOracleAuthority_layout (authority : PublicKey) :
  encodeSetOracleAuthority authority
  = Ok (16 :: take 32 (toBytes authority ++ replicate 32 0))
  ∧ length (16 :: take 32 (toBytes authority ++ replicate 32 0)) = 33%nat.
Proof.
  split.
  - unfold encodeSetOracleAuthority, Buffer.writeUInt8.
    rewrite (writeUIntLE_at 1 (Buffer.alloc 33) 16 0) by (cbn; lia).
    cbn [mbind result_bind mret result_ret]. f_equal.
    change (take 0 (Buffer.alloc 33) ++ LE.bytes 1 16 ++ drop (0 + 1) (Buffer.alloc 33))
      with (16 :: replicate 32 0).
    unfold BufferOps.copy. cbn [length take]. rewrite length_replicate.
    cbn [app]. f_equal. change (33 - 1)%nat with 32%nat.
    change (take 0 (replicate 32 0)) with (@nil Z). cbn [app].
    set (src := toBytes authority).
    destruct (Nat.le_gt_cases 32 (length src)) as [Hlong|Hshort].
    + rewrite Nat.min_r by done. cbn [Nat.add drop].
      rewrite drop_replicate, Nat.sub_diag. cbn [replicate].
      rewrite app_nil_r. by rewrite take_app_le by done.
    + rewrite Nat.min_l by lia. cbn [Nat.add drop].
      rewrite firstn_all, drop_replicate.
      rewrite take_app_ge by lia. by rewrite take_replicate, Nat.min_l by lia.
  - cbn [length]. rewrite length_take, length_app, length_replicate. lia.
Qed.

End StressEncoders.

(** ** The mock-slab writers *)

Section MockSlabWriters.
Import SlabTest.

Lemma land_mask v : Z.land v 0xFFFFFFFFFFFFFFFF = v mod 2 ^ 64.
Proof. apply land_mask64. Qed.

Lemma le_bytes_16_words u :
  LE.bytes 8 (u mod 2 ^ 64) ++ LE.bytes 8 ((u / 2 ^ 64) mod 2 ^ 64)
  = LE.bytes 16 u.
Proof.
  change 16%nat with (8 + 8)%nat. rewrite le_bytes_app.
  change (2 ^ 64) with (256 ^ Z.of_nat 8). by rewrite !le_bytes_mod.
Qed.

Lemma writeU128LE_in_bounds buf off v :
  (off + 16 ≤ length buf)%nat →
  writeU128LE buf off v
  = (take off buf ++ LE.bytes 16 (v mod 2 ^ 128) ++ drop (off + 16) buf, Ok ()).
Proof.
  intros Hlen. unfold writeU128LE, Buffer.writeBigUInt64LE.
  rewrite !land_mask, Z.shiftr_div_pow2 by lia.
  rewrite (writeUIntLE_at 8 buf (v mod 2 ^ 64) off)
    by (try apply Z.mod_pos_bound; lia).
  set (buf1 := take off buf ++ LE.bytes 8 (v mod 2 ^ 64) ++ drop (off + 8) buf).
  assert (Hl1 : length buf1 = length buf).
  { subst buf1. rewrite !length_app, length_take, le_bytes_length, length_drop. lia. }
  rewrite (writeUIntLE_at 8 buf1 ((v / 2 ^ 64) mod 2 ^ 64) (off + 8))
    by (try apply Z.mod_pos_bound; lia).
  f_equal.
  assert (Hpre : length (take off buf) = off) by (rewrite length_take; lia).
  subst buf1.
  rewrite (app_assoc (take off buf)).
  rewrite take_app_length'
    by (rewrite length_app, le_bytes_length, Hpre; done).
  replace (off + 8 + 8)%nat with ((off + 8) + 8)%nat by lia.
  rewrite drop_app_add'
    by (rewrite length_app, le_bytes_length, Hpre; done).
  rewrite drop_drop. replace (off + 8 + 8)%nat with (off + 16)%nat by lia.
  rewrite <- app_assoc. f_equal. rewrite app_assoc, le_bytes_16_words.
  change (2 ^ 128) with (256 ^ Z.of_nat 16). by rewrite le_bytes_mod.
Qed.

(** X11. Within the buffer, [writeI128LE] replaces the sixteen bytes at
    [offset] by the two's-complement little-endian bytes of the value -
    the same bytes [encI128LE] of the deploy script returns - and leaves
    every other byte of the buffer as it was. *)
Theorem writeI128LE_frame (buf : list Z) (offset : nat) (value : Z) :
  (offset + 16 ≤ length buf)%nat →
  ∃ bytes : list Z,
    DeployTightLp.encI128LE value = Ok bytes
    ∧ writeI128LE buf offset value
      = (take offset buf ++ bytes ++ drop (offset + 16) buf, Ok ()).
Proof.
  intros Hlen. exists (LE.bytes 16 (value mod 2 ^ 128)).
  split; [apply encI128LE_total|].
  unfold writeI128LE. rewrite writeU128LE_in_bounds by done.
  do 3 f_equal. destruct (value <? 0); [|done].
  rewrite Z.shiftl_1_l, Z.add_comm.
  rewrite <- (Z.mul_1_l (2 ^ 128)) at 1. by rewrite Z.mod_add by lia.
Qed.

Lemma writeI128LE_frame_witness :
  ∃ bytes : list Z,
    DeployTightLp.encI128LE (-100000) = Ok bytes
    ∧ writeI128LE (replicate 64 7) 32 (-100000)
      = (take 32 (replicate 64 7) ++ bytes ++ drop (32 + 16) (replicate 64 7), Ok ()).
Proof. apply (writeI128LE_frame (replicate 64 7) 32 (-100000)). cbn. lia. Defined.

(** X12. When the buffer has room for the low word but not for the high
    one, [writeU128LE] throws after the low eight bytes have been
    stored: the caller's buffer is left half written.  The buffer then
    holds at least eight bytes, so the error of the second write is the
    RangeError ERR_OUT_OF_RANGE on its offset. *)
Theorem writeU128LE_half_written (buf : list Z) (offset : nat) (value : Z) :
  (offset + 8 ≤ length buf)%nat → (length buf < offset + 16)%nat →
  writeU128LE buf offset value
  = (take offset buf ++ LE.bytes 8 (value mod 2 ^ 64) ++ drop (offset + 8) buf,
     Throw (RangeError "ERR_OUT_OF_RANGE")).
Proof.
  intros Hlo Hhi. unfold writeU128LE, Buffer.writeBigUInt64LE.
  rewrite !land_mask.
  rewrite (writeUIntLE_at 8 buf (value mod 2 ^ 64) offset)
    by (try apply Z.mod_pos_bound; lia).
  assert (Hlen : length (take offset buf ++ LE.bytes 8 (value mod 2 ^ 64)
                           ++ drop (offset + 8) buf) = length buf).
  { rewrite !length_app, length_take, le_bytes_length, length_drop. lia. }
  rewrite writeUIntLE_bounds; [| apply Z.mod_pos_bound; lia | lia].
  rewrite Hlen.
  by replace (length buf <? 8)%nat with false by (symmetry; apply Nat.ltb_ge; lia).
Qed.

Lemma writeU128LE_half_written_witness :
  writeU128LE (replicate 20 7) 8 (2 ^ 64 + 5)
  = (take 8 (replicate 20 7) ++ LE.bytes 8 ((2 ^ 64 + 5) mod 2 ^ 64)
       ++ drop (8 + 8) (replicate 20 7),
     Throw (RangeError "ERR_OUT_OF_RANGE")).
Proof. apply (writeU128LE_half_written (replicate 20 7) 8 (2 ^ 64 + 5)); cbn; lia. Defined.

End MockSlabWriters.

(** ** The slab filter of close-all-slabs *)

Section SlabFilter.
Import CloseAllSlabs Slab Invariants.

(** The mock slab of the parser's test is not kept by the filter. *)
Example hasMagic_mockSlab : hasMagic mockSlab = false.
Proof. vm_compute. reflexivity. Qed.

(** X13. The filter of close-all-slabs keeps account data only when its
    first eight bytes are 50 45 52 43 4f 4c 41 54, "PERCOLAT" in reading
    order.  Read as the little-endian u64 the slab parser reads, these
    bytes are 0x54414c4f43524550, which the magic check I1 rejects: no
    account data passes both the filter and the magic check. *)
Theorem hasMagic_not_slab_magic (data : list Z) :
  hasMagic data = true →
  readUIntLE 8 data 0 = Ok 0x54414c4f43524550
  ∧ ∀ header : SlabHeader,
      readUIntLE 8 data 0 = Ok (magic header) →
      passed (checkMagicNumber header) = false.
Proof.
  unfold hasMagic. destruct (Nat.ltb_spec (length data) 8) as [|Hlen]; [done|].
  unfold BufferOps.equals, BufferOps.subarray0. intros Heq.
  apply bool_decide_eq_true in Heq.
  assert (Hread : readUIntLE 8 data 0 = Ok 0x54414c4f43524550).
  { rewrite readUIntLE_in_bounds by done. rewrite Heq. reflexivity. }
  split; [exact Hread|].
  intros header Hh. rewrite Hread in Hh.
  assert (magic header = 0x54414c4f43524550) as Hm by congruence.
  unfold checkMagicNumber. cbn [passed]. rewrite Hm. reflexivity.
Qed.

Lemma hasMagic_not_slab_magic_witness :
  readUIntLE 8 (PERCOLAT_MAGIC ++ replicate 64 0) 0 = Ok 0x54414c4f43524550
  ∧ ∀ header : SlabHeader,
      readUIntLE 8 (PERCOLAT_MAGIC ++ replicate 64 0) 0 = Ok (magic header) →
      passed (checkMagicNumber header) = false.
Proof.
  apply (hasMagic_not_slab_magic (PERCOLAT_MAGIC ++ replicate 64 0)).
  vm_compute. reflexivity.
Defined.

End SlabFilter.

(** ** Key lists of the scripts against the account orderings *)

Section ScriptKeyLists.
Import Accounts AccountTables ScriptCalls.

(** X14. Of the seven key lists the happy-path script hands to
    [buildAccountMetas] with an ordering of src/abi/accounts.ts, six fit
    their ordering; the one of [deposit] has six keys (the clock sysvar
    last) for the five accounts of DepositCollateral, so against this
    ordering the builder throws for every choice of keys.  (The script
    also imports ACCOUNTS_PUSH_ORACLE_PRICE and
    ACCOUNTS_SET_ORACLE_AUTHORITY, which this accounts.ts does not
    define: it was written for another revision of the orderings.) *)
Theorem happy_path_key_lists
    (k : Keys) (userAta vaultPubkey vaultPda : PublicKey) :
  depositKeys k userAta
  = Throw (Error "Account count mismatch: expected 5, got 6")
  ∧ threw (crankKeys k) = false
  ∧ threw (initUserKeys k userAta) = false
  ∧ threw (tradeKeys k) = false
  ∧ threw (withdrawKeys k vaultPubkey userAta vaultPda) = false
  ∧ threw (closeAccountKeys k vaultPubkey userAta vaultPda) = false
  ∧ threw (topUpInsuranceKeys k userAta) = false.
Proof. repeat split. Qed.

(** X15. [runCrank] of the threshold verification script hands seven keys
    to the four accounts of KeeperCrank: the builder throws, the
    exception is caught, and [runCrank] answers [false] whatever the
    fetch returned and whatever sending would have done; [send] is never
    reached. *)
Theorem runCrank_always_false
    (k : Keys) (fetched : result (PublicKey * PublicKey))
    (send : list AccountMeta → result unit) :
  runCrank k fetched send = false
  ∧ runCrank k fetched send = runCrank k fetched (λ _, Ok ()).
Proof. unfold runCrank. destruct fetched as [config|e]; split; reflexivity. Qed.

(** X16. For every instruction of the ABI, the ordering names the slab
    account exactly once, writable and not a signer, at position 1 or
    2; and the meta builder accepts a key list exactly when it has as
    many keys as the ordering has accounts. *)
Theorem orderings_slab_account (ix : Instructions.Instruction) :
  ∃ i : nat,
    (i = 1%nat ∨ i = 2%nat)
    ∧ accountsOf ix !! i = Some {| name := "slab"; signer := false; writable := true |}
    ∧ length (filter (λ s, name s = "slab") (accountsOf ix)) = 1%nat
    ∧ ∀ keys : list PublicKey,
        threw (buildAccountMetas (accountsOf ix) keys) = false
        ↔ length keys = length (accountsOf ix).
Proof.
  assert (Hb : ∀ spec keys,
             threw (buildAccountMetas spec keys) = false ↔ length keys = length spec).
  { intros spec keys. unfold buildAccountMetas.
    destruct (Nat.eqb_spec (length keys) (length spec)); cbn; split; done. }
  destruct ix;
    first [ exists 1%nat; split; [by left|]; split; [reflexivity|];
            split; [reflexivity | apply Hb]
          | exists 2%nat; split; [by right|]; split; [reflexivity|];
            split; [reflexivity | apply Hb] ].
Qed.

End ScriptKeyLists.

(** ** What each invariant check decides *)

Section InvariantCharacterisation.
Import Slab Invariants Properties.

Lemma accountMap_snoc (accts : list IndexedAccount) (a : IndexedAccount) :
  accountMap (accts ++ [a]) = <[idx a := account a]> (accountMap accts).
Proof. unfold accountMap. by rewrite foldl_app. Qed.

(** X17. The account map built from the parsed array answers, for an
    index, with the last entry of the array that carries it: a later
    entry for the same index hides every earlier one. *)
Theorem accountMap_lookup_last (accts : list IndexedAccount) (i : nat) :
  accountMap accts !! i = account <$> last (filter (λ a, idx a = i) accts).
Proof.
  induction accts as [|a accts IH] using rev_ind; [done|].
  rewrite accountMap_snoc, filter_app.
  destruct (decide (idx a = i)) as [<-|Hne].
  - rewrite lookup_insert_eq, filter_cons_True, filter_nil by done.
    by rewrite last_snoc.
  - rewrite lookup_insert_ne, filter_cons_False, filter_nil, app_nil_r by done.
    exact IH.
Qed.

Lemma accountMap_is_Some (accts : list IndexedAccount) (i : nat) :
  is_Some (accountMap accts !! i) ↔ ∃ a, a ∈ accts ∧ idx a = i.
Proof.
  induction accts as [|a accts IH] using rev_ind.
  - split; [intros [x Hx]; done | intros (a & Ha & _); by apply elem_of_nil in Ha].
  - rewrite accountMap_snoc. destruct (decide (idx a = i)) as [<-|Hne].
    + rewrite lookup_insert_eq. split; [|by eauto].
      intros _. exists a. split; [|done]. apply elem_of_app. right. by left.
    + rewrite lookup_insert_ne by done. rewrite IH. split.
      * intros (b & Hb & Hi). exists b. split; [|done]. apply elem_of_app. by left.
      * intros (b & Hb & Hi). apply elem_of_app in Hb as [Hb|Hb]; [by eauto|].
        apply list_elem_of_singleton in Hb. congruence.
Qed.

Lemma firstMissing_none (m : gmap nat Account) (used : list nat) :
  firstMissing m used = None ↔ Forall (λ i, is_Some (m !! i)) used.
Proof.
  induction used as [|i used IH]; cbn.
  - split; [constructor | done].
  - destruct (m !! i) as [acc|] eqn:E.
    + rewrite IH. split; [intros H; constructor; [by rewrite E | done]|].
      intros H. by apply Forall_cons in H as [_ H].
    + split; [done|]. intros H. apply Forall_cons in H as [[x Hx] _].
      rewrite E in Hx. done.
Qed.

Lemma bitmap_passed
    (engine : EngineState) (used : list nat) (accts : list IndexedAccount) :
  passed (checkBitmapConsistency engine used accts) = true
  ↔ Forall (λ i, is_Some (accountMap accts !! i)) used
    ∧ Z.of_nat (length used) = numUsedAccounts engine.
Proof.
  unfold checkBitmapConsistency. rewrite <- firstMissing_none.
  destruct (firstMissing (accountMap accts) used) as [i|].
  - cbn. split; [done | by intros [? _]].
  - destruct (Z.eqb_spec (Z.of_nat (length used)) (numUsedAccounts engine));
      cbn; split; try done. by intros [_ ?].
Qed.

(** X18. The bitmap check I2 passes exactly when every used index has an
    entry in the parsed account array and the number of used indices is
    the engine's [numUsedAccounts].  Entries of the array under an index
    that is not used are not looked at. *)
Theorem checkBitmapConsistency_passes
    (engine : EngineState) (used : list nat) (accts : list IndexedAccount) :
  passed (checkBitmapConsistency engine used accts) = true
  ↔ Forall (λ i, ∃ a, a ∈ accts ∧ idx a = i) used
    ∧ Z.of_nat (length used) = numUsedAccounts engine.
Proof.
  rewrite bitmap_passed. apply and_iff_compat_r.
  split; intros Hall; (eapply Forall_impl; [exact Hall|]);
    intros j Hj; by apply accountMap_is_Some.
Qed.

Lemma findDuplicateId_complete (m : gmap nat Account) (used : list nat) :
  ∀ seenIds : gset string,
    NoDup (map accountId (omap (λ i, m !! i) used)) →
    Forall (λ a, pretty (accountId a) ∉ seenIds) (omap (λ i, m !! i) used) →
    findDuplicateId m seenIds used = None.
Proof.
  induction used as [|i used IH]; intros seenIds Hnd Hfresh; cbn in *; [done|].
  destruct (m !! i) as [acc|]; [|by apply IH].
  cbn in Hnd. apply NoDup_cons in Hnd as [Hnotin Hnd].
  apply Forall_cons in Hfresh as [Hacc Hfresh].
  destruct (decide (pretty (accountId acc) ∈ seenIds)) as [Hin|_]; [done|].
  apply IH; [exact Hnd|].
  apply Forall_forall. intros a Ha Hin.
  apply elem_of_union in Hin as [Hin|Hin].
  - apply elem_of_singleton in Hin. apply (inj pretty) in Hin.
    apply Hnotin. rewrite <- Hin. apply list_elem_of_fmap. by exists a.
  - rewrite Forall_forall in Hfresh. by apply (Hfresh a Ha).
Qed.

(** X19. The uniqueness check I3 passes exactly when the account ids of
    the used slots are pairwise distinct (the first half of P3): the
    decimal strings it collects distinguish any two ids, and a used
    index listed twice counts as a duplicate. *)
Theorem checkAccountIdUniqueness_passes (snap : SlabSnapshot) :
  passed (checkAccountIdUniqueness (accounts snap) (usedIndices snap)) = true
  ↔ P3_distinct_ids snap.
Proof.
  unfold checkAccountIdUniqueness, P3_distinct_ids, usedAccounts.
  destruct (findDuplicateId _ _ _) as [idStr|] eqn:E; cbn.
  - split; [done|]. intros Hnd.
    rewrite findDuplicateId_complete in E; [done | exact Hnd |].
    apply Forall_forall. intros a _. apply not_elem_of_empty.
  - split; [|done]. intros _. by apply findDuplicateId_none in E as [Hnd _].
Qed.

Lemma firstHugeCapital_none (m : gmap nat Account) (used : list nat) :
  firstHugeCapital m used = None
  ↔ Forall (λ a, capital a <= 2 ^ 100) (omap (λ i, m !! i) used).
Proof.
  induction used as [|i used IH]; cbn.
  - split; [constructor | done].
  - destruct (m !! i) as [acc|]; [|exact IH].
    destruct (Z.gtb_spec (capital acc) (2 ^ 100)) as [Hgt|Hle].
    + split; [done|]. intros Hall. apply Forall_cons in Hall as [Hall _]. lia.
    + rewrite IH. split; [intros Hall; constructor; [lia | done]|].
      intros Hall. by apply Forall_cons in Hall as [_ Hall].
Qed.

Lemma collateral_passed (getAccount : result Z) (accts : list IndexedAccount)
    (used : list nat) (engine : EngineState) :
  passed (checkCollateralConservation getAccount accts used engine) = true
  ↔ ∃ vaultBalance : Z,
      getAccount = Ok vaultBalance
      ∧ Z.abs (sumOver capital (omap (λ i, accountMap accts !! i) used)
               + balance (insuranceFund engine) - vaultBalance) <= 200000.
Proof.
  unfold checkCollateralConservation. rewrite totalUserCapital_sum.
  set (total := sumOver capital _ + _).
  destruct getAccount as [vb|e]; cbn.
  - destruct (Z.gtb_spec total vb);
      match goal with |- context [?d >? 200000] => destruct (Z.gtb_spec d 200000) end;
      cbn; split; try discriminate; try (intros _; exists vb; split; [done|lia]);
      intros (vb' & [= <-] & Hd); lia.
  - split; [discriminate | intros (vb & [=] & _)].
Qed.

Lemma round53_exact (n : Z) : 0 <= n < 2 ^ 53 → JsNumber.round53 n = n.
Proof.
  intros Hn. unfold JsNumber.round53.
  replace (Z.log2 n + 1 <=? 53) with true; [done|].
  symmetry. apply Z.leb_le.
  destruct (Z.eq_dec n 0) as [->|Hne]; [done|].
  pose proof (proj1 (Z.log2_lt_pow2 n 53 ltac:(lia)) ltac:(lia)). lia.
Qed.

Lemma round53_ge (n : Z) : 2 ^ 53 <= n → 2 ^ 53 <= JsNumber.round53 n.
Proof.
  intros Hn. unfold JsNumber.round53.
  assert (Hpos : 0 < n) by lia.
  pose proof (proj1 (Z.log2_le_pow2 n 53 Hpos) Hn) as HL.
  destruct (Z.log2_spec n Hpos) as [Hlo _].
  set (L := Z.log2 n) in *.
  replace (L + 1 <=? 53) with false by (symmetry; apply Z.leb_gt; lia).
  replace (L + 1 - 53) with (L - 52) by lia.
  rewrite Z.shiftr_div_pow2 by lia.
  set (q := n / 2 ^ (L - 52)).
  assert (Hk : 0 < 2 ^ (L - 52)) by (apply Z.pow_pos_nonneg; lia).
  assert (Hsplit : 2 ^ L = 2 ^ (L - 52) * 2 ^ 52).
  { rewrite <- Z.pow_add_r by lia. f_equal. lia. }
  assert (Hq : 2 ^ 52 <= q).
  { apply Z.div_le_lower_bound; [done|]. rewrite <- Hsplit. exact Hlo. }
  match goal with |- _ <= Z.shiftl ?q' _ => assert (Hq' : 2 ^ 52 <= q') end.
  { destruct (_ || _); lia. }
  rewrite Z.shiftl_mul_pow2 by lia.
  assert (H53 : 2 ^ 53 <= 2 ^ L) by (apply Z.pow_le_mono_r; lia).
  rewrite Hsplit in H53.
  etransitivity; [exact H53|]. rewrite Z.mul_comm.
  apply Z.mul_le_mono_nonneg_r; lia.
Qed.

(** Up to [2^53] an integer is below [Number(m)] exactly when it is
    below [m]. *)
Lemma le_ofBigInt (x m : Z) :
  0 <= x <= 2 ^ 53 → JsNumber.le x (JsNumber.ofBigInt m) ↔ x <= m.
Proof.
  intros Hx. unfold JsNumber.ofBigInt.
  destruct (Z.lt_ge_cases (Z.abs m) (2 ^ 53)) as [Hsmall|Hbig].
  - rewrite round53_exact by lia.
    replace (Z.abs m >=? 2 ^ 1024) with false by (symmetry; rewrite Z.geb_leb; apply Z.leb_gt; lia).
    cbn [JsNumber.le]. replace (Z.sgn m * Z.abs m) with m by lia. done.
  - pose proof (round53_ge (Z.abs m) Hbig) as HR.
    set (R := JsNumber.round53 (Z.abs m)) in *.
    destruct (R >=? 2 ^ 1024), (Z.ltb_spec m 0); cbn [JsNumber.le];
      try (split; [lia | done]); try (split; [done | lia]).
    + replace (Z.sgn m) with (-1) by lia. lia.
    + replace (Z.sgn m) with 1 by lia. lia.
Qed.

Lemma gtb_le (x : Z) (y : JsNumber.t) : JsNumber.gtb x y = false ↔ JsNumber.le x y.
Proof.
  destruct y as [z| |]; cbn; [|done|done].
  destruct (Z.gtb_spec x z); split; (done || lia).
Qed.

(** X20. The full check accepts a snapshot exactly when six conditions
    hold together: the magic is PERCOLAT; every used index has an
    account and their number is [numUsedAccounts]; the used account ids
    are distinct; the vault could be fetched and is within 200000 units
    of capital plus insurance; no used capital exceeds 2^100; and
    [numUsedAccounts] does not exceed [Number(maxAccounts)].  With at
    most 2^53 used indices, as in every JavaScript array, the last
    condition is [numUsedAccounts <= maxAccounts] itself.  Positions,
    PnL, [nextAccountId] and the engine's own vault field have no part in
    the verdict. *)
Theorem checkAll_passes_iff (getAccount : result Z) (snap : SlabSnapshot) :
  (reportPassed (checkAll getAccount snap) = true
   ↔ magic (header snap) = MAGIC
     ∧ (Forall (λ i, ∃ a, a ∈ accounts snap ∧ idx a = i) (usedIndices snap)
        ∧ Z.of_nat (length (usedIndices snap)) = numUsedAccounts (engine snap))
     ∧ P3_distinct_ids snap
     ∧ (∃ vaultBalance : Z,
           getAccount = Ok vaultBalance
           ∧ Z.abs (sumOver capital (usedAccounts snap)
                    + balance (insuranceFund (engine snap)) - vaultBalance) <= 200000)
     ∧ Forall (λ a, capital a <= 2 ^ 100) (usedAccounts snap)
     ∧ JsNumber.le (numUsedAccounts (engine snap))
                   (JsNumber.ofBigInt (maxAccounts (params snap))))
  ∧ (Z.of_nat (length (usedIndices snap)) <= 2 ^ 53 →
     (reportPassed (checkAll getAccount snap) = true
      ↔ magic (header snap) = MAGIC
        ∧ (Forall (λ i, ∃ a, a ∈ accounts snap ∧ idx a = i) (usedIndices snap)
           ∧ Z.of_nat (length (usedIndices snap)) = numUsedAccounts (engine snap))
        ∧ P3_distinct_ids snap
        ∧ (∃ vaultBalance : Z,
              getAccount = Ok vaultBalance
              ∧ Z.abs (sumOver capital (usedAccounts snap)
                       + balance (insuranceFund (engine snap)) - vaultBalance) <= 200000)
        ∧ Forall (λ a, capital a <= 2 ^ 100) (usedAccounts snap)
        ∧ numUsedAccounts (engine snap) <= maxAccounts (params snap))).
Proof.
  assert (Hiff : reportPassed (checkAll getAccount snap) = true
   ↔ magic (header snap) = MAGIC
     ∧ (Forall (λ i, ∃ a, a ∈ accounts snap ∧ idx a = i) (usedIndices snap)
        ∧ Z.of_nat (length (usedIndices snap)) = numUsedAccounts (engine snap))
     ∧ P3_distinct_ids snap
     ∧ (∃ vaultBalance : Z,
           getAccount = Ok vaultBalance
           ∧ Z.abs (sumOver capital (usedAccounts snap)
                    + balance (insuranceFund (engine snap)) - vaultBalance) <= 200000)
     ∧ Forall (λ a, capital a <= 2 ^ 100) (usedAccounts snap)
     ∧ JsNumber.le (numUsedAccounts (engine snap))
                   (JsNumber.ofBigInt (maxAccounts (params snap)))).
  { unfold checkAll. cbn [reportPassed forallb].
    rewrite !andb_true_iff.
    rewrite bitmap_passed, collateral_passed.
    assert (H2 : Forall (λ i, is_Some (accountMap (accounts snap) !! i)) (usedIndices snap)
                 ↔ Forall (λ i, ∃ a, a ∈ accounts snap ∧ idx a = i) (usedIndices snap)).
    { split; intros Hall; (eapply Forall_impl; [exact Hall|]);
        intros j Hj; by apply accountMap_is_Some. }
    rewrite H2.
    assert (H1 : passed (checkMagicNumber (header snap)) = true
                 ↔ magic (header snap) = MAGIC).
    { unfold checkMagicNumber. cbn. apply Z.eqb_eq. }
    assert (H3 : passed (checkAccountIdUniqueness (accounts snap) (usedIndices snap)) = true
                 ↔ P3_distinct_ids snap).
    { unfold checkAccountIdUniqueness, P3_distinct_ids, usedAccounts.
      destruct (findDuplicateId _ _ _) as [idStr|] eqn:E; cbn.
      - split; [done|]. intros Hnd.
        rewrite findDuplicateId_complete in E; [done | exact Hnd |].
        apply Forall_forall. intros a _. apply not_elem_of_empty.
      - split; [|done]. intros _. by apply findDuplicateId_none in E as [Hnd _]. }
    assert (H6 : passed (checkNoNegativeBalances (accounts snap) (usedIndices snap)) = true
                 ↔ Forall (λ a, capital a <= 2 ^ 100) (usedAccounts snap)).
    { unfold checkNoNegativeBalances, usedAccounts.
      rewrite <- firstHugeCapital_none.
      destruct (firstHugeCapital _ _) as [[i c]|]; cbn; split; done. }
    assert (H7 : passed (checkAccountCountConsistency (engine snap) (params snap)
                           (usedIndices snap)) = true
                 ↔ JsNumber.le (numUsedAccounts (engine snap))
                               (JsNumber.ofBigInt (maxAccounts (params snap)))).
    { unfold checkAccountCountConsistency. rewrite <- gtb_le.
      destruct (JsNumber.gtb _ _); cbn; split; done. }
    rewrite H1, H3, H6, H7. unfold usedAccounts.
    assert (H5 : passed (checkOpenInterestBalance (accounts snap) (usedIndices snap)) = true)
      by reflexivity.
    rewrite H5. tauto. }
  split; [exact Hiff|].
  intros Hlen. rewrite Hiff.
  split; intros (Hmagic & [Hall Hnum] & Hrest); (split; [exact Hmagic|]);
    (split; [by split|]); destruct Hrest as (Hids & Hvault & Hcap & Hmax);
    repeat (split; [assumption|]).
  - apply (le_ofBigInt (numUsedAccounts (engine snap))); [lia | exact Hmax].
  - apply (le_ofBigInt (numUsedAccounts (engine snap))); [lia | exact Hmax].
Qed.

Lemma net_position (l : list Account) :
  sumOver (λ a, Z.max (positionSize a) 0) l
  - sumOver (λ a, Z.max (- positionSize a) 0) l
  = sumOver positionSize l.
Proof.
  induction l as [|a l IH]; [done|].
  unfold sumOver in *. cbn [foldr]. lia.
Qed.

(** X21. The imbalance the open-interest check reports at the end of
    its message is the absolute value of the net position of the used
    accounts, so it is zero exactly when longs and shorts cancel. *)
Theorem openInterest_imbalance_net (snap : SlabSnapshot) :
  (∃ long short : Z,
     message (checkOpenInterestBalance (accounts snap) (usedIndices snap))
     = Some ("Long: " +:+ pretty long +:+ ", Short: " +:+ pretty short
               +:+ ", Imbalance: "
               +:+ pretty (Z.abs (sumOver positionSize (usedAccounts snap))))
     ∧ long - short = sumOver positionSize (usedAccounts snap))
  ∧ imbalance (openInterestTotals (accountMap (accounts snap)) (usedIndices snap))
    = Z.abs (sumOver positionSize (usedAccounts snap)).
Proof.
  assert (Himb : imbalance (openInterestTotals (accountMap (accounts snap))
                              (usedIndices snap))
                 = Z.abs (sumOver positionSize (usedAccounts snap))).
  { rewrite openInterestTotals_sums. unfold usedAccounts.
    rewrite <- net_position. unfold imbalance.
    match goal with |- context [?l >? ?s] => destruct (Z.gtb_spec l s) end; lia. }
  split; [|exact Himb].
  exists (openInterestTotals (accountMap (accounts snap)) (usedIndices snap)).1,
         (openInterestTotals (accountMap (accounts snap)) (usedIndices snap)).2.
  split.
  - unfold checkOpenInterestBalance. cbn [message]. by rewrite Himb.
  - rewrite openInterestTotals_sums. cbn [fst snd]. apply net_position.
Qed.

(** X30. On a state whose vault balance is exactly
    [Σ capital_i + insurance.balance + pnl_pos_tot] (P1 without dust),
    the collateral check I4 passes exactly when [pnl_pos_tot] is at most
    200000 in absolute value: the check does not add [pnl_pos_tot] to
    the slab total, so a state that conserves through more positive PnL
    than the tolerance is reported as a violation. *)
Theorem checkCollateralConservation_without_pnl_pos_tot
    (snap : SlabSnapshot) (vaultBalance : Z) :
  vaultBalance = sumOver capital (usedAccounts snap)
                 + balance (insuranceFund (engine snap)) + pnlPosTot (engine snap) →
  passed (checkCollateralConservation (Ok vaultBalance) (accounts snap)
            (usedIndices snap) (engine snap)) = true
  ↔ Z.abs (pnlPosTot (engine snap)) <= 200000.
Proof.
  intros Hvault. rewrite collateral_passed. fold (usedAccounts snap). split.
  - intros (vb & [= <-] & Hd). lia.
  - intros Hp. exists vaultBalance. split; [done|]. lia.
Qed.

Lemma checkCollateralConservation_without_pnl_pos_tot_witness :
  let snap := {| header := {| magic := MAGIC; version := 1; bump := 255;
                              admin := {| toBytes := replicate 32 0 |};
                              nonce := 0; lastThrUpdateSlot := 0 |};
                 engine := {| vault := 1500000;
                              insuranceFund := {| balance := 0; feeRevenue := 0 |};
                              pnlPosTot := 500000; totalOpenInterest := 0;
                              nextAccountId := 1; numUsedAccounts := 1 |};
                 params := {| maintenanceMarginBps := 500; initialMarginBps := 1000;
                              tradingFeeBps := 10; maxAccounts := 64 |};
                 accounts := [ {| idx := 0;
                                  account := {| accountId := 0; capital := 1000000;
                                                pnl := 0; positionSize := 0 |} |} ];
                 usedIndices := [0%nat] |} in
  passed (checkCollateralConservation (Ok 1500000) (accounts snap)
            (usedIndices snap) (engine snap)) = true
  ↔ Z.abs (pnlPosTot (engine snap)) <= 200000.
Proof.
  intros snap.
  apply (checkCollateralConservation_without_pnl_pos_tot snap 1500000). reflexivity.
Defined.

End InvariantCharacterisation.

(** ** Comparing two snapshots *)

Section ReplayDeterminism.
Import Invariants Determinism.

Lemma commaFree_tail (c : ascii) (s : string) :
  commaFree (String c s) → c ≠ ","%char ∧ commaFree s.
Proof.
  intros H. split.
  - intros ->. by apply (H "" s).
  - intros r1 r2 ->. by apply (H (String c r1) r2).
Qed.

Lemma element_boundary (x : string) :
  ∀ y r1 r2 : string,
    commaFree x → commaFree y → rest r1 → rest r2 →
    x +:+ r1 = y +:+ r2 → x = y ∧ r1 = r2.
Proof.
  induction x as [|c x IH]; intros y r1 r2 Hx Hy Hr1 Hr2 E.
  - destruct y as [|d y]; [done|]. cbn in E.
    apply commaFree_tail in Hy as [Hd _].
    destruct Hr1 as [->|[r' ->]]; [done|]. injection E as E1 E2. congruence.
  - apply commaFree_tail in Hx as [Hc Hx].
    destruct y as [|d y].
    + cbn in E. destruct Hr2 as [->|[r' ->]]; [done|]. injection E as E1 E2. congruence.
    + apply commaFree_tail in Hy as [_ Hy]. cbn in E. injection E as -> E.
      apply IH in E as [-> ->]; done.
Qed.

Lemma concat_cons (x : string) (xs : list string) :
  rest (match xs with [] => "" | _ => "," +:+ String.concat "," xs end)
  ∧ String.concat "," (x :: xs)
    = x +:+ match xs with [] => "" | _ => "," +:+ String.concat "," xs end.
Proof.
  destruct xs as [|x' xs]; cbn [String.concat].
  - split; [by left|]. clear. induction x as [|c x IH]; [done|].
    change (String c x = String c (x +:+ "")). by f_equal.
  - split; [right; by eexists | done].
Qed.

Lemma join_injective (l1 : list string) :
  ∀ l2 : list string,
    Forall (λ s, commaFree s ∧ s ≠ "") l1 →
    Forall (λ s, commaFree s ∧ s ≠ "") l2 →
    String.concat "," l1 = String.concat "," l2 → l1 = l2.
Proof.
  induction l1 as [|x xs IH]; intros [|y ys] H1 H2 E; [done | | |].
  - apply Forall_cons in H2 as [[_ Hy] _].
    destruct (concat_cons y ys) as [_ Ey]. rewrite Ey in E.
    destruct y; [done | discriminate].
  - apply Forall_cons in H1 as [[_ Hx] _].
    destruct (concat_cons x xs) as [_ Ex]. rewrite Ex in E.
    destruct x; [done | discriminate].
  - apply Forall_cons in H1 as [[Hx _] H1]. apply Forall_cons in H2 as [[Hy _] H2].
    destruct (concat_cons x xs) as [Rx Ex]. destruct (concat_cons y ys) as [Ry Ey].
    rewrite Ex, Ey in E. apply element_boundary in E as [-> E]; [|done..].
    f_equal. destruct xs as [|x' xs], ys as [|y' ys]; [done | done | done |].
    injection E as E. by apply IH.
Qed.

Lemma pretty_N_go_digits (x : N) :
  ∀ s : string, commaFree s → commaFree (pretty_N_go x s).
Proof.
  induction (N.lt_wf_0 x) as [x _ IH]; intros s Hs.
  assert (x = 0 ∨ 0 < x)%N as [->|Hpos] by lia.
  - by rewrite pretty_N_go_0.
  - rewrite pretty_N_go_step by done. apply IH; [by apply N.div_lt|].
    intros [|c r1] r2 E; cbn in E.
    + injection E as E _. revert E. unfold pretty_N_char. by repeat case_match.
    + injection E as _ E. by apply (Hs r1 r2).
Qed.

Lemma pretty_N_go_nonempty (x : N) :
  ∀ s : string, s ≠ "" → pretty_N_go x s ≠ "".
Proof.
  induction (N.lt_wf_0 x) as [x _ IH]; intros s Hs.
  assert (x = 0 ∨ 0 < x)%N as [->|Hpos] by lia.
  - by rewrite pretty_N_go_0.
  - rewrite pretty_N_go_step by done. apply IH; [by apply N.div_lt | done].
Qed.

Lemma pretty_nat_element (n : nat) : commaFree (pretty n) ∧ pretty n ≠ "".
Proof.
  unfold pretty, pretty_nat, pretty, pretty_N.
  destruct (decide (N.of_nat n = 0%N)) as [_|Hne].
  - split; [|done]. intros [|c [|c' r1]] r2 E; discriminate.
  - split.
    + apply pretty_N_go_digits. intros [|c r1] r2 E; discriminate.
    + rewrite pretty_N_go_step by lia. apply pretty_N_go_nonempty. done.
Qed.

Lemma sortedJoin_permutation (l1 l2 : list nat) :
  sortedJoin l1 = sortedJoin l2 ↔ l1 ≡ₚ l2.
Proof.
  unfold sortedJoin. split.
  - intros E. apply join_injective in E.
    + apply (inj (fmap pretty)) in E.
      rewrite <- (merge_sort_Permutation Nat.le l1), <- (merge_sort_Permutation Nat.le l2).
      by rewrite E.
    + apply Forall_fmap, Forall_forall. intros n _. apply pretty_nat_element.
    + apply Forall_fmap, Forall_forall. intros n _. apply pretty_nat_element.
  - intros Hp. do 2 f_equal.
    apply (Sorted_unique Nat.le); try apply Sorted_merge_sort; try apply _.
    by rewrite !merge_sort_Permutation.
Qed.

(** X22. [verifyReplayDeterminism] answers [true] exactly when the two
    snapshots have the same raw hash, the same [numUsedAccounts],
    [nextAccountId], insurance balance and [lastFundingSlot], and their
    used indices are the same up to order. *)
Theorem verifyReplayDeterminism_iff (before after : Snapshot) :
  verifyReplayDeterminism before after = true
  ↔ rawHash before = rawHash after
    ∧ numUsedAccounts (engine before) = numUsedAccounts (engine after)
    ∧ nextAccountId (engine before) = nextAccountId (engine after)
    ∧ Slab.balance (insuranceFund (engine before))
      = Slab.balance (insuranceFund (engine after))
    ∧ lastFundingSlot (engine before) = lastFundingSlot (engine after)
    ∧ usedIndices before ≡ₚ usedIndices after.
Proof.
  unfold verifyReplayDeterminism, compareSnapshots. cbn [forallb passed].
  rewrite !andb_true_iff, !String.eqb_eq, !Z.eqb_eq, sortedJoin_permutation.
  tauto.
Qed.

End ReplayDeterminism.

(** ** Scanning the LP quotes for the best prices *)

Section BestPriceScanning.
Import BestPriceScan.

(** X23. At an oracle price that is not negative, widening the edge never
    raises the bid and never lowers the ask of the passive quote. *)
Theorem computePassiveQuote_monotone (p e1 e2 : Z) :
  0 <= p → e1 <= e2 →
  BestPrice.bid (BestPrice.computePassiveQuote p e2)
    <= BestPrice.bid (BestPrice.computePassiveQuote p e1)
  ∧ BestPrice.ask (BestPrice.computePassiveQuote p e1)
    <= BestPrice.ask (BestPrice.computePassiveQuote p e2).
Proof.
  intros Hp He. unfold BestPrice.computePassiveQuote, BestPrice.BPS_DENOM.
  cbn [BestPrice.bid BestPrice.ask].
  split; apply Z.quot_le_mono; nia.
Qed.

Lemma computePassiveQuote_monotone_witness :
  BestPrice.bid (BestPrice.computePassiveQuote 9623 60)
    <= BestPrice.bid (BestPrice.computePassiveQuote 9623 50)
  ∧ BestPrice.ask (BestPrice.computePassiveQuote 9623 50)
    <= BestPrice.ask (BestPrice.computePassiveQuote 9623 60).
Proof. apply (computePassiveQuote_monotone 9623 50 60); lia. Defined.

(** A left fold that replaces the running best only by a strictly
    smaller key ends on the first element of least key. *)
Lemma foldl_first_least {A : Type} (key : A → Z) (f : A → A → A)
    (Hf : ∀ best q, f best q = if key q <? key best then q else best)
    (xs : list A) (x : A) :
  ∃ pre post : list A,
    x :: xs = pre ++ foldl f x xs :: post
    ∧ Forall (λ q, key (foldl f x xs) < key q) pre
    ∧ Forall (λ q, key (foldl f x xs) <= key q) post.
Proof.
  induction xs as [|y xs IH] using rev_ind.
  - exists [], []. cbn. repeat split; constructor.
  - destruct IH as (pre & post & Hsplit & Hpre & Hpost).
    rewrite foldl_app. cbn [foldl]. rewrite Hf. set (b := foldl f x xs) in *.
    destruct (Z.ltb_spec (key y) (key b)) as [Hlt|Hge].
    + exists (x :: xs), []. split; [reflexivity|]. split; [|constructor].
      rewrite Hsplit. apply Forall_app. split; [|constructor; [done|]].
      * eapply Forall_impl; [exact Hpre|]. cbn. intros; lia.
      * eapply Forall_impl; [exact Hpost|]. cbn. intros; lia.
    + exists pre, (post ++ [y]). split; [|split; [done|]].
      * rewrite app_comm_cons, Hsplit, <- app_assoc. done.
      * apply Forall_app. split; [done|]. by constructor.
Qed.

(** X24. The best buy is the first quote of least ask and the best sell
    the first quote of greatest bid: every quote before the chosen one
    is strictly worse, every quote after it is no better. *)
Theorem best_quotes_first_extremal (quotes : list LpQuote) (b s : LpQuote) :
  bestBuy quotes = Ok b → bestSell quotes = Ok s →
  (∃ pre post, quotes = pre ++ b :: post
     ∧ Forall (λ q, ask b < ask q) pre ∧ Forall (λ q, ask b <= ask q) post)
  ∧ (∃ pre post, quotes = pre ++ s :: post
       ∧ Forall (λ q, bid q < bid s) pre ∧ Forall (λ q, bid q <= bid s) post).
Proof.
  unfold bestBuy, bestSell, reduce. destruct quotes as [|x xs]; [done|].
  intros [= <-] [= <-]. split.
  - apply (foldl_first_least ask). done.
  - destruct (foldl_first_least (λ q, - bid q)
                (λ best q, if bid q >? bid best then q else best)) with (xs := xs) (x := x)
      as (pre & post & Hsplit & Hpre & Hpost).
    { intros best q. rewrite Z.gtb_ltb.
      destruct (Z.ltb_spec (bid best) (bid q)), (Z.ltb_spec (- bid q) (- bid best));
        done || lia. }
    exists pre, post. split; [done|].
    split; (eapply Forall_impl; [eassumption|]); cbn; intros; lia.
Qed.

Lemma best_quotes_first_extremal_witness :
  let q (i : nat) (b a : Z) :=
    {| lpIndex := i; matcherProgram := "none"; matcherContext := "none";
       bid := b; ask := a; edgeBps := 50; tradingFeeBps := 0;
       mode := "legacy-passive"; capital := 0; position := 0 |} in
  (∃ pre post, [q 0%nat 95 105; q 1%nat 97 103; q 2%nat 97 103]
               = pre ++ q 1%nat 97 103 :: post
     ∧ Forall (λ x, ask (q 1%nat 97 103) < ask x) pre
     ∧ Forall (λ x, ask (q 1%nat 97 103) <= ask x) post)
  ∧ (∃ pre post, [q 0%nat 95 105; q 1%nat 97 103; q 2%nat 97 103]
                 = pre ++ q 1%nat 97 103 :: post
       ∧ Forall (λ x, bid x < bid (q 1%nat 97 103)) pre
       ∧ Forall (λ x, bid x <= bid (q 1%nat 97 103)) post).
Proof.
  intros q.
  apply (best_quotes_first_extremal
           [q 0%nat 95 105; q 1%nat 97 103; q 2%nat 97 103]); reflexivity.
Defined.

(** X25. The report of the scan fails in one case only: at least one LP
    and an oracle answer of zero, where the spread division throws a
    RangeError.  Without LPs it reports "No LPs found" before either
    [reduce] is reached, so the TypeError of an empty [reduce] cannot
    occur. *)
Theorem findBest_throws_iff (quotes : list LpQuote) (p : Z) (e : JsError) :
  findBest quotes p = Throw e
  ↔ quotes ≠ [] ∧ p = 0 ∧ e = RangeError "Division by zero".
Proof.
  unfold findBest, bestBuy, bestSell, reduce, effectiveSpreadBps, bigintDiv.
  destruct quotes as [|x xs]; cbn.
  - split; [done | by intros [? _]].
  - destruct (Z.eqb_spec p 0) as [->|Hp]; cbn.
    + split; [intros [= <-]; done | by intros (_ & _ & ->)].
    + split; [done | by intros (_ & ? & _)].
Qed.

Lemma passive_quote_brackets (p e : Z) :
  0 <= p → 0 <= e →
  BestPrice.bid (BestPrice.computePassiveQuote p e) <= p
  ∧ p <= BestPrice.ask (BestPrice.computePassiveQuote p e).
Proof.
  intros Hp He. unfold BestPrice.computePassiveQuote, BestPrice.BPS_DENOM.
  cbn [BestPrice.bid BestPrice.ask]. split.
  - rewrite <- (Z.quot_mul p 10000) at 2 by lia. apply Z.quot_le_mono; nia.
  - rewrite <- (Z.quot_mul p 10000) at 1 by lia. apply Z.quot_le_mono; nia.
Qed.

Lemma lpQuote_passiveAt (p : Z) (i : nat) (mp mc : string) (e f : Z)
    (m : string) (c pos : Z) :
  0 <= e + f → passiveAt p (lpQuote p i mp mc e f m c pos).
Proof. intros He. unfold passiveAt, lpQuote. cbn. done. Qed.

(** X26. When the oracle price is positive and every quote is the passive
    quote of its LP at a total edge that is not negative, the scan
    reports a best buy at or above the oracle price, a best sell at or
    below it, and an effective spread that is not negative. *)
Theorem findBest_spread_nonneg (quotes : list LpQuote) (p : Z) :
  0 < p → quotes ≠ [] → Forall (passiveAt p) quotes →
  ∃ best : Best,
    findBest quotes p = Ok (Some best)
    ∧ buy best ∈ quotes ∧ sell best ∈ quotes
    ∧ bid (sell best) <= p <= ask (buy best)
    ∧ 0 <= spreadBps best.
Proof.
  intros Hp Hne Hall. unfold findBest, bestBuy, bestSell, reduce, effectiveSpreadBps,
    bigintDiv.
  destruct quotes as [|x xs]; [done|]. cbn [length Nat.eqb mbind result_bind mret result_ret].
  replace (p =? 0) with false by (symmetry; apply Z.eqb_neq; lia).
  eexists. split; [reflexivity|]. cbn [buy sell spreadBps].
  set (bb := foldl _ x xs). set (bs := foldl _ x xs).
  assert (Hbb : bb ∈ x :: xs).
  { destruct (foldl_first_least ask (λ best q, if ask q <? ask best then q else best))
      with (xs := xs) (x := x) as (pre & post & Hsplit & _); [done|].
    fold bb in Hsplit. rewrite Hsplit. apply elem_of_app. right. by left. }
  assert (Hbs : bs ∈ x :: xs).
  { subst bs. clear -xs. revert x. induction xs as [|y xs IH]; intros x; cbn [foldl].
    - by left.
    - destruct (bid y >? bid x).
      + right. apply IH.
      + specialize (IH x). apply elem_of_cons in IH as [->|IH]; [by left|].
        right. by right. }
  rewrite Forall_forall in Hall.
  destruct (Hall _ Hbb) as (Heb & _ & Hask). destruct (Hall _ Hbs) as (Hes & Hbid & _).
  destruct (passive_quote_brackets p (edgeBps bb)) as [_ Ha]; [lia | done |].
  destruct (passive_quote_brackets p (edgeBps bs)) as [Hb _]; [lia | done |].
  rewrite <- Hask in Ha. rewrite <- Hbid in Hb.
  repeat split; try done.
  apply Z.quot_pos; nia.
Qed.

Lemma findBest_spread_nonneg_witness :
  let quotes := [ lpQuote 9623 0%nat "none" "none" 50 0 "legacy-passive" 0 0;
                  lpQuote 9623 1%nat "none" "none" 20 10 "vamm" 0 0 ] in
  ∃ best : Best,
    findBest quotes 9623 = Ok (Some best)
    ∧ buy best ∈ quotes ∧ sell best ∈ quotes
    ∧ bid (sell best) <= 9623 <= ask (buy best)
    ∧ 0 <= spreadBps best.
Proof.
  intros quotes. apply (findBest_spread_nonneg quotes 9623); [lia | done |].
  repeat constructor; cbn; lia.
Defined.

End BestPriceScanning.

(** ** Margin analysis of the state dump *)

Section MarginAnalysis.
Import DumpState.

Lemma quot_lt_upper (a b c : Z) : 0 < b → 0 < c → a < c * b → a ÷ b < c.
Proof.
  intros Hb Hc Hlt. destruct (Z.le_gt_cases 0 a) as [Ha|Ha].
  - apply Z.quot_lt_upper_bound; lia.
  - pose proof (Z.quot_le_mono a 0 b Hb ltac:(lia)) as Hq.
    rewrite Z.quot_0_l in Hq by lia. lia.
Qed.

(** X27. An account is reported LIQUIDATABLE exactly when its effective
    capital is below the maintenance requirement.  With a positive
    notional and a positive maintenance margin the reason given with
    it, "margin ratio is below maintenance margin", is true; with a
    notional of zero the ratio in that sentence is the placeholder
    99999. *)
Theorem liquidatable_reason (p : Z) (params : Slab.RiskParams) (acc : AccountFields) :
  let m := analyse p params acc in
  (status m = LIQUIDATABLE ↔ effectiveCapital m < maintenanceReq m)
  ∧ (status m = LIQUIDATABLE → 0 < Slab.maintenanceMarginBps params →
     0 < notionalLamports m →
     marginRatioBps m < Slab.maintenanceMarginBps params)
  ∧ (notionalLamports m <= 0 → marginRatioBps m = 99999).
Proof.
  intros m. subst m. unfold analyse. cbn [status effectiveCapital maintenanceReq
    marginRatioBps notionalLamports buffer].
  set (N := ((if positionSize acc <? 0 then - positionSize acc else positionSize acc) * p)
              ÷ 1000000).
  set (ec := capital acc + _).
  set (mm := Slab.maintenanceMarginBps params).
  assert (Hliq : (if ec - (N * mm) ÷ 10000 <? 0 then LIQUIDATABLE
                  else if negb (ec - (N * mm) ÷ 10000 <? 0)
                          && ((if N >? 0 then (ec * 10000) ÷ N else 99999) <? mm * 2)
                       then AT_RISK else SAFE) = LIQUIDATABLE
                 ↔ ec < (N * mm) ÷ 10000).
  { destruct (Z.ltb_spec (ec - (N * mm) ÷ 10000) 0) as [Hlt|Hge].
    - split; [lia | done].
    - cbn [negb andb]. destruct (_ <? mm * 2); split; (done || lia). }
  split; [exact Hliq|]. split.
  - intros Hst Hmm HN. apply Hliq in Hst.
    replace (N >? 0) with true by (symmetry; apply Z.gtb_lt; lia).
    apply quot_lt_upper; [done | done |].
    assert (Hreq : 10000 * ((N * mm) ÷ 10000) <= N * mm).
    { rewrite Z.quot_div_nonneg by nia. apply Z.mul_div_le. lia. }
    nia.
  - intros HN. replace (N >? 0) with false; [done|].
    symmetry. destruct (Z.gtb_spec N 0); [lia | done].
Qed.

(** X28. An account without a position and with capital that is not
    negative is reported SAFE whenever twice the maintenance margin is
    at most 99999 bps, whatever the oracle price and its entry price:
    its notional and its maintenance requirement are zero and its
    effective capital is its capital. *)
Theorem flat_account_safe (p : Z) (params : Slab.RiskParams) (acc : AccountFields) :
  positionSize acc = 0 → 0 <= capital acc →
  Slab.maintenanceMarginBps params * 2 <= 99999 →
  let m := analyse p params acc in
  status m = SAFE ∧ notionalLamports m = 0 ∧ maintenanceReq m = 0
  ∧ effectiveCapital m = capital acc.
Proof.
  intros Hpos Hcap Hmm m. subst m. unfold analyse.
  cbn [status effectiveCapital maintenanceReq marginRatioBps notionalLamports buffer].
  rewrite Hpos. cbn [Z.ltb Z.compare Z.mul Z.quot Z.quotrem fst Z.gtb andb negb].
  change (0 ÷ 1000000) with 0. rewrite !Z.mul_0_l.
  change (0 ÷ 1000000) with 0. change (0 ÷ 10000) with 0.
  rewrite Z.add_0_r, Z.sub_0_r.
  replace (capital acc <? 0) with false by (symmetry; apply Z.ltb_ge; lia).
  cbn [negb andb]. change (0 >? 0) with false. cbv iota.
  replace (99999 <? Slab.maintenanceMarginBps params * 2) with false
    by (symmetry; apply Z.ltb_ge; lia).
  done.
Qed.

Lemma flat_account_safe_witness :
  let params := {| Slab.maintenanceMarginBps := 500; Slab.initialMarginBps := 1000;
                   Slab.tradingFeeBps := 10; Slab.maxAccounts := 64 |} in
  let acc := {| positionSize := 0; entryPrice := 7200; capital := 1000000 |} in
  let m := analyse oraclePrice params acc in
  status m = SAFE ∧ notionalLamports m = 0 ∧ maintenanceReq m = 0
  ∧ effectiveCapital m = capital acc.
Proof.
  intros params acc.
  apply (flat_account_safe oraclePrice params acc); [reflexivity | cbn; lia | cbn; lia].
Defined.

End MarginAnalysis.

(** ** Margin required, as the liquidation test computes it *)

Section MarginRequired.
Import LiquidationTest.

(** X29. The margin the liquidation test requires does not depend on the
    side of the position; for a price and a margin rate that are not
    negative it is the product [|size| * price * bps / 10000] rounded
    down, and it grows with the margin rate. *)
Theorem calculateMarginRequired_floor (size price bps bps' : Z) :
  0 <= price → 0 <= bps <= bps' →
  calculateMarginRequired (- size) price bps = calculateMarginRequired size price bps
  ∧ calculateMarginRequired size price bps * 10000 <= Z.abs size * price * bps
      < (calculateMarginRequired size price bps + 1) * 10000
  ∧ calculateMarginRequired size price bps <= calculateMarginRequired size price bps'.
Proof.
  intros Hp Hb. unfold calculateMarginRequired.
  assert (Habs : ∀ x, (if x <? 0 then - x else x) = Z.abs x).
  { intros x. destruct (Z.ltb_spec x 0); lia. }
  rewrite !Habs, Z.abs_opp. split; [done|].
  pose proof (Z.abs_nonneg size) as Ha.
  assert (Hn : 0 <= Z.abs size * price) by (apply Z.mul_nonneg_nonneg; lia).
  split.
  - rewrite Z.quot_div_nonneg by (try apply Z.mul_nonneg_nonneg; lia).
    pose proof (Z.mul_div_le (Z.abs size * price * bps) 10000).
    pose proof (Z.mul_succ_div_gt (Z.abs size * price * bps) 10000). lia.
  - apply Z.quot_le_mono; [lia|]. apply Z.mul_le_mono_nonneg_l; lia.
Qed.

Lemma calculateMarginRequired_floor_witness :
  calculateMarginRequired (- 1500) 7246 500 = calculateMarginRequired 1500 7246 500
  ∧ calculateMarginRequired 1500 7246 500 * 10000 <= Z.abs 1500 * 7246 * 500
      < (calculateMarginRequired 1500 7246 500 + 1) * 10000
  ∧ calculateMarginRequired 1500 7246 500 <= calculateMarginRequired 1500 7246 1000.
Proof. apply (calculateMarginRequired_floor 1500 7246 500 1000); lia. Defined.

End MarginRequired.
